(** * MuseMarket: the credit / settlement / earnings ledger

    A shallow embedding of the ledger controller of the MuseMarket backend
    (createPurchase, getCreditBalance, settleCredit, claimCreatorEarnings),
    of the Mongoose schemas it writes through (SimpleCredit, Purchase,
    CreatorEarnings, Content, User) and of WalletService.transferPYUSD.

    Modelling conventions.
    - A MongoDB collection with a unique key the code always queries by
      (SimpleCredit by user, User and Content by _id) is a [gmap]; a
      collection that is filtered, sorted or bulk-updated (Purchase,
      CreatorEarnings) is a list in insertion order.
    - A JavaScript number is an exact integer ([Z]); rounding of binary
      floating point is outside the model.
    - A handler is a computation in the monad [M]: it threads the database
      and may throw an [AppError].  The database that comes out of a failed
      handler is the one left behind by the writes made before the throw,
      since no transaction wraps a handler.
    - Storage-level failures (connection loss, index violations) are not
      modelled; schema validators ([min: 0]) are. *)

From Stdlib Require Import ZArith List String Bool Lia Sorted Permutation.
From stdpp Require Import base option list gmap strings pretty.
Import ListNotations.

Local Open Scope string_scope.
Local Open Scope list_scope.
Local Open Scope Z_scope.

(** ** Data model *)

Definition ObjectId := N.

(** [status] of a Purchase: enum ['pending','completed','failed','refunded']. *)
Inductive PurchaseStatus :=
| PurchasePending
| PurchaseCompleted
| PurchaseFailed
| PurchaseRefunded.

(** [status] of a CreatorEarnings document: enum ['pending','claimed']. *)
Inductive EarningStatus :=
| pending
| claimed.

Definition EarningStatus_eqb (a b : EarningStatus) : bool :=
  match a, b with
  | pending, pending => true
  | claimed, claimed => true
  | _, _ => false
  end.

(** ContentSchema, restricted to the fields the ledger reads or writes. *)
Record Content := mkContent {
  content_creator : ObjectId;
  content_price : Z;
  content_salesCount : Z
}.

(** UserSchema, restricted likewise. *)
Record User := mkUser {
  user_walletAddress : string;
  user_totalEarnings : Z;
  user_totalSales : Z
}.

(** SimpleCreditSchema; the [user] field is the key of the collection. *)
Record SimpleCredit := mkSimpleCredit {
  creditBalance : Z;
  settledTransactions : list string
}.

(** PurchaseSchema. *)
Record Purchase := mkPurchase {
  purchase_id : ObjectId;
  purchase_buyer : ObjectId;
  purchase_content : ObjectId;
  purchase_amount : Z;
  purchase_transactionHash : string;
  purchase_status : PurchaseStatus;
  purchase_createdAt : Z
}.

(** CreatorEarningsSchema. *)
Record CreatorEarnings := mkCreatorEarnings {
  earning_id : ObjectId;
  earning_creator : ObjectId;
  earning_content : ObjectId;
  earning_purchase : ObjectId;
  earning_amount : Z;
  earning_status : EarningStatus;
  earning_claimedAt : option Z;
  earning_transactionHash : option string;
  earning_createdAt : Z
}.

(** The database: one field per collection, and the supply of fresh
    ObjectIds handed out by [new Model(...)]. *)
Record DB := mkDB {
  contents : gmap ObjectId Content;
  users : gmap ObjectId User;
  credits : gmap ObjectId SimpleCredit;
  purchases : list Purchase;
  earnings : list CreatorEarnings;
  nextId : ObjectId
}.

(** ** Errors

    One constructor per [throw] of the controller, named as the
    specification names them, plus Mongoose's ValidationError. *)
Inductive AppError :=
| ContentNotFound
| AlreadyPurchased
| InsufficientCredit
| LedgerNotFound
| NothingToSettle
| InvalidReference
| DuplicateSettlement
| InvalidAmount
| NoPayoutAddress
| NoPendingEarnings
| ExceedsAvailable (totalPendingAmount : Z)
| PayoutFailed (reason : string)
| ValidationError (path : string).

Definition message (e : AppError) : string :=
  match e with
  | ContentNotFound => "Content not found"
  | AlreadyPurchased => "Content already purchased"
  | InsufficientCredit => "Insufficient credit"
  | LedgerNotFound => "Credit not found"
  | NothingToSettle => "No pending purchases to settle"
  | InvalidReference => "Valid transaction hash is required"
  | DuplicateSettlement => "Transaction hash already used for settlement"
  | InvalidAmount => "Valid amount is required"
  | NoPayoutAddress =>
      "Creator wallet address not found. Please connect your wallet first."
  | NoPendingEarnings => "No pending earnings to claim"
  | ExceedsAvailable t =>
      "Cannot claim more than available. Pending: " +:+ pretty t +:+ " PYUSD"
  | PayoutFailed r => "Failed to transfer PYUSD: " +:+ r
  | ValidationError p => "Validation failed: " +:+ p
  end.

Definition statusCode (e : AppError) : Z :=
  match e with
  | ContentNotFound | LedgerNotFound => 404
  | PayoutFailed _ | ValidationError _ => 500
  | _ => 400
  end.

(** ** The handler monad: database state and exceptions *)

Inductive result (A : Type) :=
| Ok (a : A)
| Err (e : AppError).

Arguments Ok {A} a.
Arguments Err {A} e.

Definition M (A : Type) : Type := DB -> result A * DB.

Definition ret {A} (a : A) : M A := fun db => (Ok a, db).

Definition throw {A} (e : AppError) : M A := fun db => (Err e, db).

Definition bind {A B} (m : M A) (k : A -> M B) : M B :=
  fun db =>
    match m db with
    | (Ok a, db') => k a db'
    | (Err e, db') => (Err e, db')
    end.

Definition gets {A} (f : DB -> A) : M A := fun db => (Ok (f db), db).

Definition modify (f : DB -> DB) : M unit := fun db => (Ok tt, f db).

Notation "x <- c1 ;; c2" := (bind c1 (fun x => c2))
  (at level 100, c1 at next level, right associativity).
Notation "c1 ;;; c2" := (bind c1 (fun _ => c2))
  (at level 100, right associativity).

(** ** Collection primitives *)

Definition set_contents (f : gmap ObjectId Content -> gmap ObjectId Content)
    (db : DB) : DB :=
  mkDB (f (contents db)) (users db) (credits db) (purchases db) (earnings db)
       (nextId db).

Definition set_users (f : gmap ObjectId User -> gmap ObjectId User)
    (db : DB) : DB :=
  mkDB (contents db) (f (users db)) (credits db) (purchases db) (earnings db)
       (nextId db).

Definition set_credits
    (f : gmap ObjectId SimpleCredit -> gmap ObjectId SimpleCredit)
    (db : DB) : DB :=
  mkDB (contents db) (users db) (f (credits db)) (purchases db) (earnings db)
       (nextId db).

Definition set_purchases (f : list Purchase -> list Purchase) (db : DB) : DB :=
  mkDB (contents db) (users db) (credits db) (f (purchases db)) (earnings db)
       (nextId db).

Definition set_earnings (f : list CreatorEarnings -> list CreatorEarnings)
    (db : DB) : DB :=
  mkDB (contents db) (users db) (credits db) (purchases db) (f (earnings db))
       (nextId db).

(** [new Model(...)] draws a fresh [_id]. *)
Definition newObjectId : M ObjectId :=
  fun db =>
    (Ok (nextId db),
     mkDB (contents db) (users db) (credits db) (purchases db) (earnings db)
          (N.succ (nextId db))).

(** A [min: 0] validator on a numeric path, run by [save()]. *)
Definition validateMin0 (path : string) (v : Z) : M unit :=
  if v <? 0 then throw (ValidationError path) else ret tt.

(** [$inc] on a User by id ([findByIdAndUpdate] runs no validator and does
    nothing when the id matches no document); the increment is 0 for a
    field the update leaves out. *)
Definition User_inc (userId : ObjectId) (dEarnings dSales : Z) : M unit :=
  modify (set_users (alter (fun u =>
    mkUser (user_walletAddress u) (user_totalEarnings u + dEarnings)
           (user_totalSales u + dSales)) userId)).

(** [Content.findByIdAndUpdate(id, { $inc: { salesCount: 1 } })]. *)
Definition Content_incSalesCount (contentId : ObjectId) : M unit :=
  modify (set_contents (alter (fun c =>
    mkContent (content_creator c) (content_price c)
              (content_salesCount c + 1)) contentId)).

(** [userCredit.save()]: validates [creditBalance] ([min: 0]) and writes. *)
Definition SimpleCredit_save (user : ObjectId) (c : SimpleCredit) : M unit :=
  validateMin0 "creditBalance" (creditBalance c) ;;;
  modify (set_credits (insert user c)).

(** PurchaseSchema.pre('save'): when [status] is modified and is
    'completed', bump the content's sales count and add the amount to the
    creator's [totalEarnings]. *)
Definition Purchase_preSave (statusModified : bool) (p : Purchase) : M unit :=
  match statusModified, purchase_status p with
  | true, PurchaseCompleted =>
      Content_incSalesCount (purchase_content p) ;;;
      content <- gets (fun db => contents db !! purchase_content p) ;;
      match content with
      | Some content => User_inc (content_creator content) (purchase_amount p) 0
      | None => ret tt
      end
  | _, _ => ret tt
  end.

(** [purchase.save()] of a new document: validation, then the pre-save
    hook, then the insert.  [statusSet] tells whether the constructor was
    given a [status] (a path set on a new document is modified). *)
Definition Purchase_save (statusSet : bool) (p : Purchase) : M unit :=
  validateMin0 "amount" (purchase_amount p) ;;;
  Purchase_preSave statusSet p ;;;
  modify (set_purchases (fun ps => ps ++ [p])).

(** [creatorEarnings.save()] of a new document. *)
Definition CreatorEarnings_save (e : CreatorEarnings) : M unit :=
  validateMin0 "amount" (earning_amount e) ;;;
  modify (set_earnings (fun es => es ++ [e])).

(** [Purchase.findOne({ buyer, content })]. *)
Definition Purchase_findOne (buyer content : ObjectId) (db : DB)
    : option Purchase :=
  List.find (fun p => (purchase_buyer p =? buyer)%N
                      && (purchase_content p =? content)%N) (purchases db).

(** ** Inputs of a request other than its arguments *)

(** The platform wallet as [transferPYUSD] sees it: whether wallet and
    provider were initialised, [ethers.isAddress], and the hexadecimal
    digits [Math.random] yields for the mock transaction hash. *)
Record WalletService := mkWalletService {
  walletInitialized : bool;
  isValidAddress : string -> bool;
  randomHex : string
}.

Record Env := mkEnv {
  now : Z;
  wallet : WalletService
}.

(** ** Responses *)

Inductive Response :=
| PurchaseCreated (id : ObjectId) (amount : Z) (transactionHash : string)
    (remainingCredit : Z)
| CreditBalance (balance : Z)
| CreditSettled (totalAmount : Z) (settledPurchases : nat)
    (newCreditBalance : Z)
| EarningsClaimed (claimedAmount : Z) (claimedEarnings : nat)
    (remainingPending : Z) (transactionHash : string).

(** ** createPurchase *)

Definition createPurchase (env : Env) (buyerId contentId : ObjectId)
    : M Response :=
  content <- gets (fun db => contents db !! contentId) ;;
  match content with
  | None => throw ContentNotFound
  | Some content =>
    existingPurchase <- gets (Purchase_findOne buyerId contentId) ;;
    match existingPurchase with
    | Some _ => throw AlreadyPurchased
    | None =>
      found <- gets (fun db => credits db !! buyerId) ;;
      userCredit <-
        match found with
        | Some c => ret c
        | None =>
            let c := mkSimpleCredit 100 [] in
            SimpleCredit_save buyerId c ;;; ret c
        end ;;
      if creditBalance userCredit <? content_price content
      then throw InsufficientCredit
      else
        let userCredit :=
          mkSimpleCredit (creditBalance userCredit - content_price content)
                         (settledTransactions userCredit) in
        SimpleCredit_save buyerId userCredit ;;;
        pid <- newObjectId ;;
        let purchase :=
          mkPurchase pid buyerId contentId (content_price content)
                     ("credit_" +:+ pretty (now env)) PurchaseCompleted
                     (now env) in
        Purchase_save true purchase ;;;
        Content_incSalesCount contentId ;;;
        eid <- newObjectId ;;
        CreatorEarnings_save
          (mkCreatorEarnings eid (content_creator content) contentId pid
             (content_price content) pending None None (now env)) ;;;
        ret (PurchaseCreated pid (purchase_amount purchase)
               (purchase_transactionHash purchase)
               (creditBalance userCredit))
    end
  end.

(** ** getCreditBalance *)

Definition getCreditBalance (userId : ObjectId) : M Response :=
  found <- gets (fun db => credits db !! userId) ;;
  userCredit <-
    match found with
    | Some c => ret c
    | None =>
        let c := mkSimpleCredit 100 [] in
        SimpleCredit_save userId c ;;; ret c
    end ;;
  ret (CreditBalance (creditBalance userCredit)).

(** ** Request-body values

    [req.body] comes out of the JSON parser, so a field can hold any
    JavaScript value; the controller inspects it with [!v] and [typeof]. *)
Inductive JsValue :=
| JsUndefined
| JsNull
| JsBoolean (b : bool)
| JsNumber (n : Z)
| JsString (s : string)
| JsObject.

(** Truthiness, as [!v] negates it. *)
Definition truthy (v : JsValue) : bool :=
  match v with
  | JsUndefined | JsNull => false
  | JsBoolean b => b
  | JsNumber n => negb (n =? 0)
  | JsString s => negb (String.eqb s "")
  | JsObject => true
  end.

Definition typeof (v : JsValue) : string :=
  match v with
  | JsUndefined => "undefined"
  | JsNull => "object"
  | JsBoolean _ => "boolean"
  | JsNumber _ => "number"
  | JsString _ => "string"
  | JsObject => "object"
  end.

(** The string a value turns into inside a template literal or when
    Mongoose casts it to a [String] path. *)
Definition toString (v : JsValue) : string :=
  match v with
  | JsUndefined => "undefined"
  | JsNull => "null"
  | JsBoolean true => "true"
  | JsBoolean false => "false"
  | JsNumber n => pretty n
  | JsString s => s
  | JsObject => "[object Object]"
  end.

(** [Array.prototype.includes] on an array of strings: strict equality,
    so only a string can be found. *)
Definition includes (l : list string) (v : JsValue) : bool :=
  match v with
  | JsString s => existsb (String.eqb s) l
  | _ => false
  end.

(** ** settleCredit *)

(** The filter [{ buyer: userId, transactionHash: { $regex: /^credit_/ } }]. *)
Definition isPendingPurchaseOf (userId : ObjectId) (p : Purchase) : bool :=
  (purchase_buyer p =? userId)%N
  && String.prefix "credit_" (purchase_transactionHash p).

Definition findPendingPurchases (userId : ObjectId) (db : DB) : list Purchase :=
  List.filter (isPendingPurchaseOf userId) (purchases db).

Definition setPurchaseHash (h : string) (p : Purchase) : Purchase :=
  mkPurchase (purchase_id p) (purchase_buyer p) (purchase_content p)
             (purchase_amount p) h (purchase_status p) (purchase_createdAt p).

Definition setEarningHash (h : string) (e : CreatorEarnings) : CreatorEarnings :=
  mkCreatorEarnings (earning_id e) (earning_creator e) (earning_content e)
    (earning_purchase e) (earning_amount e) (earning_status e)
    (earning_claimedAt e) (Some h) (earning_createdAt e).

Definition settleCredit (userId : ObjectId) (transactionHash : JsValue)
    : M Response :=
  found <- gets (fun db => credits db !! userId) ;;
  match found with
  | None => throw LedgerNotFound
  | Some userCredit =>
    pendingPurchases <- gets (findPendingPurchases userId) ;;
    if (length pendingPurchases =? 0)%nat
    then throw NothingToSettle
    else
      let totalAmount :=
        fold_left (fun sum purchase => sum + purchase_amount purchase)
                  pendingPurchases 0 in
      if negb (truthy transactionHash)
         || negb (String.eqb (typeof transactionHash) "string")
      then throw InvalidReference
      else if includes (settledTransactions userCredit) transactionHash
      then throw DuplicateSettlement
      else
        let userCredit :=
          mkSimpleCredit 100
            (settledTransactions userCredit ++ [toString transactionHash]) in
        SimpleCredit_save userId userCredit ;;;
        modify (set_purchases (map (fun p =>
          if isPendingPurchaseOf userId p
          then setPurchaseHash ("settled_" +:+ toString transactionHash) p
          else p))) ;;;
        let purchaseIds := map purchase_id pendingPurchases in
        modify (set_earnings (map (fun e =>
          if existsb (N.eqb (earning_purchase e)) purchaseIds
          then setEarningHash (toString transactionHash) e
          else e))) ;;;
        ret (CreditSettled totalAmount (length pendingPurchases)
               (creditBalance userCredit))
  end.

(** ** WalletService.transferPYUSD *)

Inductive outcome (A : Type) :=
| Returned (a : A)
| Thrown (errorMessage : string).

Arguments Returned {A} a.
Arguments Thrown {A} errorMessage.

Record TransferResult := mkTransferResult {
  transfer_transactionHash : string;
  transfer_success : bool
}.

Definition transferPYUSD (w : WalletService) (recipientAddress : string)
    (amount : Z) : outcome TransferResult :=
  if negb (walletInitialized w)
  then Thrown "Platform wallet not initialized"
  else if negb (isValidAddress w recipientAddress)
  then Thrown "Invalid recipient address"
  else Returned (mkTransferResult ("0x" +:+ randomHex w) true).

(** ** claimCreatorEarnings *)

(** [.sort({ createdAt: 1 })]: ascending by creation time; documents
    created at the same instant keep their collection order. *)
Fixpoint insertByCreatedAt (e : CreatorEarnings) (l : list CreatorEarnings)
    : list CreatorEarnings :=
  match l with
  | [] => [e]
  | x :: r =>
      if earning_createdAt e <=? earning_createdAt x
      then e :: l
      else x :: insertByCreatedAt e r
  end.

Definition sortByCreatedAt (l : list CreatorEarnings) : list CreatorEarnings :=
  fold_right insertByCreatedAt [] l.

(** The filter [{ creator: userId, status: 'pending' }]. *)
Definition isPendingEarningOf (userId : ObjectId) (e : CreatorEarnings) : bool :=
  (earning_creator e =? userId)%N && EarningStatus_eqb (earning_status e) pending.

(** [CreatorEarnings.find({ creator, status: 'pending' }).sort({ createdAt: 1 })]. *)
Definition findPendingEarnings (userId : ObjectId) (db : DB)
    : list CreatorEarnings :=
  sortByCreatedAt (List.filter (isPendingEarningOf userId) (earnings db)).

(** An element of the [claimedEarnings] array of the response. *)
Record ClaimedEarning := mkClaimedEarning {
  claimed_id : ObjectId;
  claimed_amount : Z;
  claimed_content : ObjectId;
  claimed_claimedAt : Z;
  claimed_transactionHash : string
}.

(** [earning.save()] of a loaded document: the stored document with the
    same [_id] takes the in-memory values. *)
Definition CreatorEarnings_update (e : CreatorEarnings) : M unit :=
  modify (set_earnings (map (fun x =>
    if (earning_id x =? earning_id e)%N then e else x))).

(** The [for (const earning of pendingEarnings)] loop, with its two
    accumulators [remainingToClaim] and [claimedEarnings]. *)
Fixpoint claimLoop (env : Env) (transferTransactionHash : string)
    (pendingEarnings : list CreatorEarnings) (remainingToClaim : Z)
    (claimedEarnings : list ClaimedEarning) : M (list ClaimedEarning) :=
  match pendingEarnings with
  | [] => ret claimedEarnings
  | earning :: rest =>
      if remainingToClaim <=? 0
      then ret claimedEarnings
      else
        let claimAmount := Z.min remainingToClaim (earning_amount earning) in
        let earning :=
          mkCreatorEarnings (earning_id earning) (earning_creator earning)
            (earning_content earning) (earning_purchase earning)
            (earning_amount earning) claimed (Some (now env))
            (Some transferTransactionHash) (earning_createdAt earning) in
        CreatorEarnings_update earning ;;;
        claimLoop env transferTransactionHash rest
          (remainingToClaim - claimAmount)
          (claimedEarnings ++
             [mkClaimedEarning (earning_id earning) claimAmount
                (earning_content earning) (now env) transferTransactionHash])
  end.

(** [amount] is the number in the request body; [!amount] is then
    [amount === 0]. *)
Definition claimCreatorEarnings (env : Env) (userId : ObjectId) (amount : Z)
    : M Response :=
  if (amount =? 0) || (amount <=? 0)
  then throw InvalidAmount
  else
    creator <- gets (fun db => users db !! userId) ;;
    match creator with
    | None => throw NoPayoutAddress
    | Some creator =>
      if String.eqb (user_walletAddress creator) ""
      then throw NoPayoutAddress
      else
        pendingEarnings <- gets (findPendingEarnings userId) ;;
        if (length pendingEarnings =? 0)%nat
        then throw NoPendingEarnings
        else
          let totalPendingAmount :=
            fold_left (fun sum earning => sum + earning_amount earning)
                      pendingEarnings 0 in
          if amount >? totalPendingAmount
          then throw (ExceedsAvailable totalPendingAmount)
          else
            match transferPYUSD (wallet env) (user_walletAddress creator)
                                amount with
            | Thrown transferError => throw (PayoutFailed transferError)
            | Returned transferResult =>
              let transferTransactionHash :=
                transfer_transactionHash transferResult in
              claimedEarnings <-
                claimLoop env transferTransactionHash pendingEarnings amount [] ;;
              User_inc userId amount (Z.of_nat (length claimedEarnings)) ;;;
              ret (EarningsClaimed amount (length claimedEarnings)
                     (totalPendingAmount - amount) transferTransactionHash)
            end
    end.

(** ** Requests and runs *)

Inductive Request :=
| ReqCreatePurchase (buyerId contentId : ObjectId)
| ReqGetCreditBalance (userId : ObjectId)
| ReqSettleCredit (userId : ObjectId) (transactionHash : JsValue)
| ReqClaimCreatorEarnings (userId : ObjectId) (amount : Z).

Definition handle (env : Env) (r : Request) : M Response :=
  match r with
  | ReqCreatePurchase b c => createPurchase env b c
  | ReqGetCreditBalance u => getCreditBalance u
  | ReqSettleCredit u h => settleCredit u h
  | ReqClaimCreatorEarnings u a => claimCreatorEarnings env u a
  end.

(** The server handles requests one after the other; a failed request
    leaves whatever it wrote. *)
Fixpoint run (rs : list (Env * Request)) (db : DB) : DB :=
  match rs with
  | [] => db
  | (env, r) :: rs' => run rs' (snd (handle env r db))
  end.

(** ** Notions the properties are stated with *)

Definition ALLOWANCE : Z := 100.

(** The ledger record a handler works on for a user: the stored one, or
    the one it creates on the spot. *)
Definition ledgerOf (db : DB) (u : ObjectId) : SimpleCredit :=
  default (mkSimpleCredit 100 []) (credits db !! u).

(** Every stored credit balance lies in [0, ALLOWANCE]. *)
Definition creditInRange (db : DB) : Prop :=
  map_Forall (fun _ cr => 0 <= creditBalance cr <= ALLOWANCE) (credits db).

(** Every stored content passed the ContentSchema validators on [price]
    ([min: 0], [max: 10000]); they run on creation and on update. *)
Definition contentsValid (db : DB) : Prop :=
  map_Forall (fun _ c => 0 <= content_price c <= 10000) (contents db).

(** Every stored earning passed the validator on [amount] ([min: 0]). *)
Definition earningsValid (db : DB) : Prop :=
  Forall (fun e => 0 <= earning_amount e) (earnings db).

(** Documents of the CreatorEarnings collection have distinct [_id]s. *)
Definition earningIdsUnique (db : DB) : Prop :=
  List.NoDup (map earning_id (earnings db)).

Definition sumEarnings (l : list CreatorEarnings) : Z :=
  fold_left (fun sum earning => sum + earning_amount earning) l 0.

Definition sumPurchases (l : list Purchase) : Z :=
  fold_left (fun sum purchase => sum + purchase_amount purchase) l 0.

(** Sum of a creator's pending earnings, as the claim handler computes it. *)
Definition pendingTotal (db : DB) (u : ObjectId) : Z :=
  sumEarnings (findPendingEarnings u db).

Definition isClaimedEarningOf (userId : ObjectId) (e : CreatorEarnings) : bool :=
  (earning_creator e =? userId)%N && EarningStatus_eqb (earning_status e) claimed.

(** Sum of a creator's earnings with status=claimed. *)
Definition claimedTotal (db : DB) (u : ObjectId) : Z :=
  sumEarnings (List.filter (isClaimedEarningOf u) (earnings db)).

(** A creator's [totalEarnings] aggregate (0 when there is no such user). *)
Definition totalEarningsOf (db : DB) (u : ObjectId) : Z :=
  from_option user_totalEarnings 0 (users db !! u).

Definition incSales (c : Content) : Content :=
  mkContent (content_creator c) (content_price c) (content_salesCount c + 1).

(** The purchase and the earning a successful [createPurchase] inserts. *)
Definition newPurchase (env : Env) (buyerId contentId : ObjectId) (c : Content)
    (db : DB) : Purchase :=
  mkPurchase (nextId db) buyerId contentId (content_price c)
             ("credit_" +:+ pretty (now env)) PurchaseCompleted (now env).

Definition newEarning (env : Env) (contentId : ObjectId) (c : Content)
    (db : DB) : CreatorEarnings :=
  mkCreatorEarnings (N.succ (nextId db)) (content_creator c) contentId
    (nextId db) (content_price c) pending None None (now env).

(** The database a successful [createPurchase] leaves. *)
Definition purchased (env : Env) (buyerId contentId : ObjectId) (c : Content)
    (db : DB) : DB :=
  mkDB (alter incSales contentId (alter incSales contentId (contents db)))
       (alter (fun u => mkUser (user_walletAddress u)
                          (user_totalEarnings u + content_price c)
                          (user_totalSales u + 0))
              (content_creator c) (users db))
       (<[buyerId :=
            mkSimpleCredit
              (creditBalance (ledgerOf db buyerId) - content_price c)
              (settledTransactions (ledgerOf db buyerId))]> (credits db))
       (purchases db ++ [newPurchase env buyerId contentId c db])
       (earnings db ++ [newEarning env contentId c db])
       (N.succ (N.succ (nextId db))).

(** The database after the lazy creation of a ledger record. *)
Definition withLedger (u : ObjectId) (db : DB) : DB :=
  set_credits (insert u (ledgerOf db u)) db.

(** What the claim loop does to one earning. *)
Definition markClaimed (env : Env) (h : string) (e : CreatorEarnings)
    : CreatorEarnings :=
  mkCreatorEarnings (earning_id e) (earning_creator e) (earning_content e)
    (earning_purchase e) (earning_amount e) claimed (Some (now env)) (Some h)
    (earning_createdAt e).

(** The earnings the claim loop touches before it breaks: it walks the
    list while [remainingToClaim] is positive. *)
Fixpoint consumed (remainingToClaim : Z) (l : list CreatorEarnings)
    : list CreatorEarnings :=
  match l with
  | [] => []
  | e :: r =>
      if remainingToClaim <=? 0 then []
      else e :: consumed (remainingToClaim
                          - Z.min remainingToClaim (earning_amount e)) r
  end.

(** The database a successful [settleCredit] with the string [h] leaves. *)
Definition settled (userId : ObjectId) (h : string) (db : DB) : DB :=
  mkDB (contents db) (users db)
       (<[userId :=
            mkSimpleCredit 100
              (settledTransactions (ledgerOf db userId) ++ [h])]> (credits db))
       (map (fun p => if isPendingPurchaseOf userId p
                      then setPurchaseHash ("settled_" +:+ h) p else p)
            (purchases db))
       (map (fun e =>
               if existsb (N.eqb (earning_purchase e))
                    (map purchase_id (findPendingPurchases userId db))
               then setEarningHash h e else e)
            (earnings db))
       (nextId db).

(** The writes of the claim loop, one [save()] per consumed earning. *)
Definition saveAll (env : Env) (h : string) (used es : list CreatorEarnings)
    : list CreatorEarnings :=
  fold_left
    (fun es e =>
       map (fun x => if (earning_id x =? earning_id e)%N
                     then markClaimed env h e else x) es)
    used es.

(** The database a successful claim of [amount] paid under the
    transaction hash [h] leaves. *)
Definition afterClaim (env : Env) (userId : ObjectId) (amount : Z) (h : string)
    (db : DB) : DB :=
  let used := consumed amount (findPendingEarnings userId db) in
  set_users
    (alter (fun u => mkUser (user_walletAddress u)
                       (user_totalEarnings u + amount)
                       (user_totalSales u + Z.of_nat (length used)))
           userId)
    (set_earnings (saveAll env h used) db).

(** Oldest first: ascending [createdAt]. *)
Definition oldestFirst (l : list CreatorEarnings) : Prop :=
  StronglySorted (fun a b => earning_createdAt a <= earning_createdAt b) l.

(** Whether an earning is one of [used], by [_id]. *)
Definition isOneOf (used : list CreatorEarnings) (e : CreatorEarnings) : bool :=
  existsb (N.eqb (earning_id e)) (map earning_id used).

(** The earnings collection with every earning of [used] marked claimed. *)
Definition claimAll (env : Env) (h : string) (used es : list CreatorEarnings)
    : list CreatorEarnings :=
  map (fun e => if isOneOf used e then markClaimed env h e else e) es.

(** The reference [h] is among the settled transactions of [u]'s ledger. *)
Definition recorded (h : string) (db : DB) (u : ObjectId) : Prop :=
  existsb (String.eqb h) (settledTransactions (ledgerOf db u)) = true.

(** The shape the sibling validator [validateRecordDeposit] demands of a
    transaction hash: [isLength({ min: 66, max: 66 })]. *)
Definition hasTransactionHashLength (s : string) : bool :=
  (String.length s =? 66)%nat.

(** A replayed settlement is reported as a duplicate: after a successful
    settlement with [ref] the balance is the allowance and settling again
    with [ref] fails with DuplicateSettlement. *)
Definition replayIsDuplicate (db : DB) (u : ObjectId) (ref : JsValue) : Prop :=
  forall resp db1,
    settleCredit u ref db = (Ok resp, db1) ->
    creditBalance (ledgerOf db1 u) = ALLOWANCE /\
    fst (settleCredit u ref db1) = Err DuplicateSettlement.


(** ** A small marketplace

    A buyer (1), a creator (2) with three contents priced 50, 0 and 30,
    and a user (3) whose credit is used up. *)

Definition exampleWallet : WalletService :=
  mkWalletService true (fun _ => true) "ab12".

Definition offlineWallet : WalletService :=
  mkWalletService false (fun _ => true) "ab12".

Definition exampleDb : DB :=
  mkDB (<[10%N := mkContent 2%N 50 0]>
          (<[11%N := mkContent 2%N 0 0]>
             (<[12%N := mkContent 2%N 30 0]> ∅)))
       (<[1%N := mkUser "0xb0b" 0 0]>
          (<[2%N := mkUser "0xc0de" 0 0]>
             (<[3%N := mkUser "0xd00d" 0 0]> ∅)))
       (<[3%N := mkSimpleCredit 0 ["0x01"]]> ∅)
       [] [] 100%N.

(** The buyer has bought the content priced 50. *)
Definition dbPurchased : DB :=
  snd (createPurchase (mkEnv 1000 exampleWallet) 1%N 10%N exampleDb).

(** ... and has then settled with the reference "0xabc". *)
Definition dbSettled : DB :=
  snd (settleCredit 1%N (JsString "0xabc") dbPurchased).

(** The creator has claimed 30 of the pending 50. *)
Definition dbClaimed30 : DB :=
  snd (claimCreatorEarnings (mkEnv 2000 exampleWallet) 2%N 30 dbPurchased).

(** The buyer has bought the contents priced 50 and 30, in this order. *)
Definition dbTwoSales : DB :=
  run [(mkEnv 1000 exampleWallet, ReqCreatePurchase 1%N 10%N);
       (mkEnv 1100 exampleWallet, ReqCreatePurchase 1%N 12%N)] exampleDb.

(** A day of requests: a purchase, its settlement, another purchase, a
    balance query by the creator. *)
Definition exampleRequests : list (Env * Request) :=
  [(mkEnv 1000 exampleWallet, ReqCreatePurchase 1%N 10%N);
   (mkEnv 1100 exampleWallet, ReqSettleCredit 1%N (JsString "0xabc"));
   (mkEnv 1200 exampleWallet, ReqCreatePurchase 1%N 12%N);
   (mkEnv 1300 exampleWallet, ReqGetCreditBalance 2%N)].

(** ** Pagination helpers: utils/pagination.ts and utils/response.ts *)

(** What [parseInt] makes of a query parameter: an integer, or NaN when
    the parameter is absent or does not start with digits. *)
Inductive ParsedInt :=
| NotANumber
| Parsed (z : Z).

(** [n || d] on such a number: NaN and 0 are falsy. *)
Definition orDefault (n : ParsedInt) (d : Z) : Z :=
  match n with
  | NotANumber => d
  | Parsed z => if z =? 0 then d else z
  end.

Record PaginationOptions := mkPaginationOptions {
  opt_page : Z;
  opt_limit : Z;
  opt_skip : Z
}.

(** [getPaginationOptions], given [parseInt(req.query.page)] and
    [parseInt(req.query.limit)]. *)
Definition getPaginationOptions (parsedPage parsedLimit : ParsedInt)
    : PaginationOptions :=
  let page := orDefault parsedPage 1 in
  let limit := orDefault parsedLimit 10 in
  let skip := (page - 1) * limit in
  mkPaginationOptions page limit skip.

(** [Math.ceil(total / limit)] on integers, [limit] not 0. *)
Definition ceilDiv (total limit : Z) : Z := - ((- total) / limit).

Record Pagination := mkPagination {
  pagination_page : Z;
  pagination_limit : Z;
  pagination_total : Z;
  pagination_pages : Z
}.

Record Paginated (A : Type) := mkPaginated {
  paginated_data : list A;
  paginated_pagination : Pagination
}.

Arguments mkPaginated {A} _ _.
Arguments paginated_data {A} _.
Arguments paginated_pagination {A} _.

(** [sendPaginated]: the body of the response. *)
Definition sendPaginated {A} (data : list A) (page limit total : Z)
    : Paginated A :=
  let pages := ceilDiv total limit in
  mkPaginated data (mkPagination page limit total pages).

(** [.sort({ createdAt: -1 })]: newest first; documents created at the
    same instant keep their collection order. *)
Fixpoint insertNewestFirst {A} (createdAt : A -> Z) (x : A) (l : list A)
    : list A :=
  match l with
  | [] => [x]
  | y :: r =>
      if createdAt y <=? createdAt x
      then x :: l
      else y :: insertNewestFirst createdAt x r
  end.

Definition sortNewestFirst {A} (createdAt : A -> Z) (l : list A) : list A :=
  fold_right (insertNewestFirst createdAt) [] l.

(** [.skip(skip).limit(limit)] on a cursor, for [skip >= 0] and
    [limit >= 1], the values the database accepts as they are. *)
Definition skipLimit {A} (skip limit : Z) (l : list A) : list A :=
  firstn (Z.to_nat limit) (skipn (Z.to_nat skip) l).

(** ** getUserPurchases *)

Definition isPurchaseOf (userId : ObjectId) (p : Purchase) : bool :=
  (purchase_buyer p =? userId)%N.

Definition getUserPurchases (userId : ObjectId)
    (parsedPage parsedLimit : ParsedInt) (db : DB) : Paginated Purchase :=
  let o := getPaginationOptions parsedPage parsedLimit in
  let purchases_ :=
    skipLimit (opt_skip o) (opt_limit o)
      (sortNewestFirst purchase_createdAt
         (List.filter (isPurchaseOf userId) (purchases db))) in
  let total :=
    Z.of_nat (length (List.filter (isPurchaseOf userId) (purchases db))) in
  sendPaginated purchases_ (opt_page o) (opt_limit o) total.

(** ** getCreatorEarnings *)

Definition isEarningOf (userId : ObjectId) (e : CreatorEarnings) : bool :=
  (earning_creator e =? userId)%N.

(** A document the [$group] stage yields: one per status that occurs. *)
Record StatusGroup := mkStatusGroup {
  group_id : EarningStatus;
  group_totalAmount : Z;
  group_count : Z
}.

Definition groupOf (s : EarningStatus) (matched : list CreatorEarnings)
    : list StatusGroup :=
  let g := List.filter (fun e => EarningStatus_eqb (earning_status e) s)
                       matched in
  match g with
  | [] => []
  | _ :: _ =>
      [mkStatusGroup s
         (fold_right (fun e sum => earning_amount e + sum) 0 g)
         (Z.of_nat (length g))]
  end.

(** [CreatorEarnings.aggregate([{ $match: { creator } },
    { $group: { _id: '$status', totalAmount: { $sum: '$amount' },
                count: { $sum: 1 } } }])]. *)
Definition aggregateByStatus (userId : ObjectId) (db : DB) : list StatusGroup :=
  let matched := List.filter (isEarningOf userId) (earnings db) in
  groupOf pending matched ++ groupOf claimed matched.

Record SummaryEntry := mkSummaryEntry {
  summary_amount : Z;
  summary_count : Z
}.

Record SummaryData := mkSummaryData {
  summary_pending : SummaryEntry;
  summary_claimed : SummaryEntry
}.

(** [summaryData[item._id] = { amount: item.totalAmount, count: item.count }]. *)
Definition setSummary (d : SummaryData) (item : StatusGroup) : SummaryData :=
  let entry := mkSummaryEntry (group_totalAmount item) (group_count item) in
  match group_id item with
  | pending => mkSummaryData entry (summary_claimed d)
  | claimed => mkSummaryData (summary_pending d) entry
  end.

Record CreatorEarningsResponse := mkCreatorEarningsResponse {
  response_earnings : list CreatorEarnings;
  response_summary : SummaryData;
  response_pagination : Pagination
}.

Definition getCreatorEarnings (userId : ObjectId)
    (parsedPage parsedLimit : ParsedInt) (db : DB) : CreatorEarningsResponse :=
  let o := getPaginationOptions parsedPage parsedLimit in
  let earnings_ :=
    skipLimit (opt_skip o) (opt_limit o)
      (sortNewestFirst earning_createdAt
         (List.filter (isEarningOf userId) (earnings db))) in
  let total :=
    Z.of_nat (length (List.filter (isEarningOf userId) (earnings db))) in
  let summary := aggregateByStatus userId db in
  let summaryData :=
    fold_left setSummary summary
      (mkSummaryData (mkSummaryEntry 0 0) (mkSummaryEntry 0 0)) in
  mkCreatorEarningsResponse earnings_ summaryData
    (mkPagination (opt_page o) (opt_limit o) total
       (ceilDiv total (opt_limit o))).

(** ** Consistency of the stored ledger *)


(** No ledger records a reference twice. *)
Definition referencesDistinct (db : DB) : Prop :=
  map_Forall (fun _ cr => List.NoDup (settledTransactions cr)) (credits db).

(** The earning at a position belongs to the purchase at that position. *)
Definition earningOfPurchase (p : Purchase) (e : CreatorEarnings) : Prop :=
  earning_purchase e = purchase_id p /\
  earning_amount e = purchase_amount p /\
  earning_content e = purchase_content p.

(** Ids are distinct and were drawn from the supply, amounts passed their
    validators, and purchases and earnings go in pairs. *)
Record storeConsistent (db : DB) : Prop := mkStoreConsistent {
  consistent_contents : contentsValid db;
  consistent_earningIds : earningIdsUnique db;
  consistent_purchaseIds : List.NoDup (map purchase_id (purchases db));
  consistent_earningsFresh :
    Forall (fun e => (earning_id e < nextId db)%N) (earnings db);
  consistent_purchasesFresh :
    Forall (fun p => (purchase_id p < nextId db)%N) (purchases db);
  consistent_amounts : earningsValid db;
  consistent_pairs : Forall2 earningOfPurchase (purchases db) (earnings db)
}.

(** The buyer holds a purchase of the content. *)
Definition hasPurchased (db : DB) (buyerId contentId : ObjectId) : Prop :=
  exists p, Purchase_findOne buyerId contentId db = Some p.

(** [ContentSchema.virtual('totalRevenue')]. *)
Definition totalRevenue (c : Content) : Z :=
  content_price c * content_salesCount c.


(** The creator has claimed 30, and the buyer settles afterwards. *)
Definition dbClaimedThenSettled : DB :=
  snd (settleCredit 1%N (JsString "0xabc") dbClaimed30).

(** The creator claims 60 of the 80 pending after two sales. *)
Definition dbClaimed60 : DB :=
  snd (claimCreatorEarnings (mkEnv 2000 exampleWallet) 2%N 60 dbTwoSales).

(** ** Running handlers: equations of the monad *)

Lemma run_bind_assoc {A B C} (m : M A) (k : A -> M B) (k' : B -> M C) db :
  bind (bind m k) k' db = bind m (fun a => bind (k a) k') db.
Proof. unfold bind. destruct (m db) as [[a|e] db1]; reflexivity. Qed.

Lemma run_bind_ret {A B} (a : A) (k : A -> M B) db : bind (ret a) k db = k a db.
Proof. reflexivity. Qed.

Lemma run_bind_throw {A B} (e : AppError) (k : A -> M B) db :
  bind (throw e) k db = (Err e, db).
Proof. reflexivity. Qed.

Lemma run_bind_gets {A B} (f : DB -> A) (k : A -> M B) db :
  bind (gets f) k db = k (f db) db.
Proof. reflexivity. Qed.

Lemma run_bind_modify {B} (f : DB -> DB) (k : unit -> M B) db :
  bind (modify f) k db = k tt (f db).
Proof. reflexivity. Qed.

Lemma run_bind_newObjectId {B} (k : ObjectId -> M B) db :
  bind newObjectId k db =
  k (nextId db) (mkDB (contents db) (users db) (credits db) (purchases db)
                      (earnings db) (N.succ (nextId db))).
Proof. reflexivity. Qed.

Lemma validateMin0_ok path v : 0 <= v -> validateMin0 path v = ret tt.
Proof.
  intros H. unfold validateMin0.
  destruct (Z.ltb_spec v 0); [lia | reflexivity].
Qed.

Lemma validateMin0_fails path v :
  v < 0 -> validateMin0 path v = throw (ValidationError path).
Proof.
  intros H. unfold validateMin0.
  destruct (Z.ltb_spec v 0); [reflexivity | lia].
Qed.

Ltac mstep :=
  repeat first
    [ rewrite run_bind_assoc
    | rewrite run_bind_ret
    | rewrite run_bind_throw
    | rewrite run_bind_gets
    | rewrite run_bind_modify
    | rewrite run_bind_newObjectId
    | rewrite validateMin0_ok by (simpl; lia)
    | rewrite validateMin0_fails by (simpl; lia)
    | progress cbv beta ].

Ltac unfold_saves :=
  unfold SimpleCredit_save, Purchase_save, Purchase_preSave,
    CreatorEarnings_save, Content_incSalesCount, User_inc.

(** ** createPurchase *)

Lemma createPurchase_ok env db buyerId contentId c :
  contents db !! contentId = Some c ->
  Purchase_findOne buyerId contentId db = None ->
  0 <= content_price c <= creditBalance (ledgerOf db buyerId) ->
  createPurchase env buyerId contentId db =
    (Ok (PurchaseCreated (nextId db) (content_price c)
           ("credit_" +:+ pretty (now env))
           (creditBalance (ledgerOf db buyerId) - content_price c)),
     purchased env buyerId contentId c db).
Proof.
  intros Hc Hp [H0 Hle].
  unfold createPurchase. mstep. rewrite Hc. mstep. rewrite Hp. mstep.
  unfold purchased, newPurchase, newEarning, ledgerOf in *.
  destruct (credits db !! buyerId) as [cr|] eqn:Hcr; simpl in Hle |- *.
  - mstep. destruct (Z.ltb_spec (creditBalance cr) (content_price c)); [lia|].
    unfold_saves. mstep. simpl. mstep.
    unfold set_contents at 1. simpl. rewrite lookup_alter_eq, Hc. simpl. mstep.
    reflexivity.
  - unfold_saves. mstep. simpl.
    destruct (Z.ltb_spec 100 (content_price c)); [lia|].
    mstep. simpl. mstep.
    unfold set_contents at 1. simpl. rewrite lookup_alter_eq, Hc. simpl. mstep.
    unfold set_credits, set_contents, set_users, set_purchases, set_earnings.
    simpl. rewrite insert_insert_eq. reflexivity.
Qed.

Lemma withLedger_id db u cr : credits db !! u = Some cr -> withLedger u db = db.
Proof.
  intros H. unfold withLedger, ledgerOf, set_credits. rewrite H. simpl.
  rewrite insert_id by exact H. destruct db; reflexivity.
Qed.

Lemma ledgerOf_withLedger db u v : ledgerOf (withLedger u db) v = ledgerOf db v.
Proof.
  unfold withLedger, ledgerOf, set_credits. simpl.
  destruct (decide (u = v)) as [->|Hne].
  - rewrite lookup_insert_eq. reflexivity.
  - rewrite lookup_insert_ne by exact Hne. reflexivity.
Qed.

Lemma createPurchase_insufficient env db buyerId contentId c :
  contents db !! contentId = Some c ->
  Purchase_findOne buyerId contentId db = None ->
  creditBalance (ledgerOf db buyerId) < content_price c ->
  createPurchase env buyerId contentId db =
    (Err InsufficientCredit, withLedger buyerId db).
Proof.
  intros Hc Hp Hlt.
  unfold createPurchase. mstep. rewrite Hc. mstep. rewrite Hp. mstep.
  destruct (credits db !! buyerId) as [cr|] eqn:Hcr.
  - rewrite (withLedger_id _ _ _ Hcr).
    unfold ledgerOf in Hlt. rewrite Hcr in Hlt. simpl in Hlt. mstep.
    destruct (Z.ltb_spec (creditBalance cr) (content_price c)); [|lia].
    reflexivity.
  - unfold withLedger. unfold ledgerOf in *. rewrite Hcr in *. simpl in Hlt |- *.
    unfold_saves. mstep. simpl.
    destruct (Z.ltb_spec 100 (content_price c)); [|lia].
    reflexivity.
Qed.

Lemma createPurchase_negative_price env db buyerId contentId c :
  contents db !! contentId = Some c ->
  Purchase_findOne buyerId contentId db = None ->
  content_price c <= creditBalance (ledgerOf db buyerId) ->
  content_price c < 0 ->
  fst (createPurchase env buyerId contentId db) = Err (ValidationError "amount").
Proof.
  intros Hc Hp Hle Hneg.
  unfold createPurchase. mstep. rewrite Hc. mstep. rewrite Hp. mstep.
  unfold ledgerOf in Hle.
  destruct (credits db !! buyerId) as [cr|] eqn:Hcr; simpl in Hle.
  - mstep. destruct (Z.ltb_spec (creditBalance cr) (content_price c)); [lia|].
    unfold_saves. mstep. reflexivity.
  - unfold_saves. mstep. simpl.
    destruct (Z.ltb_spec 100 (content_price c)); [lia|].
    mstep. reflexivity.
Qed.

(** A successful [createPurchase] went through every check, and leaves
    exactly [purchased]. *)
Lemma createPurchase_inv env db buyerId contentId resp db' :
  createPurchase env buyerId contentId db = (Ok resp, db') ->
  exists c,
    contents db !! contentId = Some c /\
    Purchase_findOne buyerId contentId db = None /\
    0 <= content_price c <= creditBalance (ledgerOf db buyerId) /\
    db' = purchased env buyerId contentId c db /\
    resp = PurchaseCreated (nextId db) (content_price c)
             ("credit_" +:+ pretty (now env))
             (creditBalance (ledgerOf db buyerId) - content_price c).
Proof.
  intros H.
  destruct (contents db !! contentId) as [c|] eqn:Hc.
  2:{ unfold createPurchase in H. revert H. mstep. rewrite Hc. discriminate. }
  destruct (Purchase_findOne buyerId contentId db) as [p|] eqn:Hp.
  { unfold createPurchase in H. revert H. mstep. rewrite Hc. mstep.
    rewrite Hp. discriminate. }
  destruct (Z.lt_ge_cases (creditBalance (ledgerOf db buyerId)) (content_price c))
    as [Hlt|Hle].
  { rewrite (createPurchase_insufficient _ _ _ _ _ Hc Hp Hlt) in H. discriminate. }
  destruct (Z.lt_ge_cases (content_price c) 0) as [Hneg|H0].
  { pose proof (createPurchase_negative_price env _ _ _ _ Hc Hp Hle Hneg) as E.
    rewrite H in E. discriminate. }
  rewrite (createPurchase_ok _ _ _ _ _ Hc Hp (conj H0 Hle)) in H.
  injection H as <- <-. exists c. auto.
Qed.

Lemma ledgerOf_purchased env db buyerId contentId c :
  ledgerOf (purchased env buyerId contentId c db) buyerId =
  mkSimpleCredit (creditBalance (ledgerOf db buyerId) - content_price c)
                 (settledTransactions (ledgerOf db buyerId)).
Proof. unfold ledgerOf at 1. simpl. rewrite lookup_insert_eq. reflexivity. Qed.


(** C9. Every successful createPurchase creates exactly one Purchase and
    exactly one Earning record; the earning belongs to the content's creator,
    is linked to the purchase, has status=pending, and its amount is the
    purchase's amount, which is the content price at purchase time. *)
Theorem createPurchase_records_one_pending_earning
    env db buyerId contentId resp db' :
  createPurchase env buyerId contentId db = (Ok resp, db') ->
  exists c p e,
    contents db !! contentId = Some c /\
    purchases db' = purchases db ++ [p] /\
    earnings db' = earnings db ++ [e] /\
    purchase_buyer p = buyerId /\
    purchase_content p = contentId /\
    purchase_amount p = content_price c /\
    earning_creator e = content_creator c /\
    earning_purchase e = purchase_id p /\
    earning_status e = pending /\
    earning_amount e = purchase_amount p.
Proof.
  intros H. apply createPurchase_inv in H as (c & Hc & _ & _ & -> & _).
  exists c, (newPurchase env buyerId contentId c db),
         (newEarning env contentId c db).
  simpl. auto 12.
Qed.


(** ** getCreditBalance *)

Lemma getCreditBalance_run db u :
  getCreditBalance u db =
    (Ok (CreditBalance (creditBalance (ledgerOf db u))), withLedger u db).
Proof.
  unfold getCreditBalance. mstep.
  destruct (credits db !! u) as [cr|] eqn:Hcr.
  - rewrite (withLedger_id _ _ _ Hcr). unfold ledgerOf. rewrite Hcr. reflexivity.
  - unfold withLedger, ledgerOf. rewrite Hcr. simpl.
    unfold_saves. mstep. reflexivity.
Qed.

(** ** settleCredit *)

Lemma length_eqb_0 {A} (l : list A) : (length l =? 0)%nat = true <-> l = [].
Proof. destruct l; simpl; split; intros H; congruence. Qed.

Lemma settleCredit_no_ledger db u v :
  credits db !! u = None -> settleCredit u v db = (Err LedgerNotFound, db).
Proof. intros H. unfold settleCredit. mstep. rewrite H. reflexivity. Qed.

Lemma settleCredit_nothing db u v cr :
  credits db !! u = Some cr ->
  findPendingPurchases u db = [] ->
  settleCredit u v db = (Err NothingToSettle, db).
Proof.
  intros H Hp. unfold settleCredit. mstep. rewrite H. mstep. rewrite Hp.
  reflexivity.
Qed.

Lemma settleCredit_duplicate db u h cr :
  credits db !! u = Some cr ->
  findPendingPurchases u db <> [] ->
  h <> "" ->
  existsb (String.eqb h) (settledTransactions cr) = true ->
  settleCredit u (JsString h) db = (Err DuplicateSettlement, db).
Proof.
  intros H Hp Hh Hin. unfold settleCredit. mstep. rewrite H. mstep.
  destruct (length (findPendingPurchases u db) =? 0)%nat eqn:E.
  { apply length_eqb_0 in E. contradiction. }
  simpl. apply String.eqb_neq in Hh. rewrite Hh. simpl. rewrite Hin.
  reflexivity.
Qed.

Lemma settleCredit_ok db u h cr :
  credits db !! u = Some cr ->
  findPendingPurchases u db <> [] ->
  h <> "" ->
  existsb (String.eqb h) (settledTransactions cr) = false ->
  settleCredit u (JsString h) db =
    (Ok (CreditSettled (sumPurchases (findPendingPurchases u db))
           (length (findPendingPurchases u db)) 100),
     settled u h db).
Proof.
  intros H Hp Hh Hin. unfold settleCredit. mstep. rewrite H. mstep.
  destruct (length (findPendingPurchases u db) =? 0)%nat eqn:E.
  { apply length_eqb_0 in E. contradiction. }
  simpl. apply String.eqb_neq in Hh. rewrite Hh. simpl. rewrite Hin.
  unfold_saves. mstep. simpl.
  unfold settled, ledgerOf. rewrite H. reflexivity.
Qed.

(** The reference passes the handler's check exactly when it is a
    non-empty string. *)
Lemma reference_check v :
  negb (truthy v) || negb (String.eqb (typeof v) "string") = false <->
  exists h, v = JsString h /\ h <> "".
Proof.
  split.
  - destruct v as [| |b|n|s|]; simpl; try (destruct b); simpl;
      try discriminate; try (rewrite orb_true_r; discriminate).
    rewrite orb_false_r, negb_false_iff, negb_true_iff.
    intros E. exists s. split; [reflexivity|]. apply String.eqb_neq. exact E.
  - intros (h & -> & Hh). apply String.eqb_neq in Hh. simpl. rewrite Hh.
    reflexivity.
Qed.

Lemma settleCredit_invalid db u v cr :
  credits db !! u = Some cr ->
  findPendingPurchases u db <> [] ->
  negb (truthy v) || negb (String.eqb (typeof v) "string") = true ->
  settleCredit u v db = (Err InvalidReference, db).
Proof.
  intros H Hp Hv. unfold settleCredit. mstep. rewrite H. mstep.
  destruct (length (findPendingPurchases u db) =? 0)%nat eqn:E.
  { apply length_eqb_0 in E. contradiction. }
  rewrite Hv. reflexivity.
Qed.

(** A settlement either succeeds and leaves [settled], or fails and
    leaves the database as it was. *)
Lemma settleCredit_cases db u v :
  (exists e, settleCredit u v db = (Err e, db)) \/
  (exists h cr resp,
     v = JsString h /\ h <> "" /\ credits db !! u = Some cr /\
     findPendingPurchases u db <> [] /\
     existsb (String.eqb h) (settledTransactions cr) = false /\
     settleCredit u v db = (Ok resp, settled u h db)).
Proof.
  destruct (credits db !! u) as [cr|] eqn:Hcr.
  2:{ left. eexists. apply settleCredit_no_ledger. exact Hcr. }
  assert (findPendingPurchases u db = [] \/ findPendingPurchases u db <> [])
    as [Hp|Hne]
    by (destruct (findPendingPurchases u db); [left|right]; congruence).
  { left. eexists. eapply settleCredit_nothing; eauto. }
  destruct (negb (truthy v) || negb (String.eqb (typeof v) "string")) eqn:Hv.
  { left. eexists. eapply settleCredit_invalid; eauto. }
  apply reference_check in Hv as (h & -> & Hh).
  destruct (existsb (String.eqb h) (settledTransactions cr)) eqn:Hin.
  - left. eexists. eapply settleCredit_duplicate; eauto.
  - right. exists h, cr. eexists.
    split_and!; [reflexivity|assumption|reflexivity|assumption|assumption|].
    apply settleCredit_ok with cr; assumption.
Qed.

Lemma not_pending_after_settle u h p :
  isPendingPurchaseOf u
    (if isPendingPurchaseOf u p
     then setPurchaseHash ("settled_" +:+ h) p else p) = false.
Proof.
  destruct (isPendingPurchaseOf u p) eqn:E; [|exact E].
  unfold isPendingPurchaseOf. simpl. apply andb_false_r.
Qed.

Lemma findPendingPurchases_settled db u h :
  findPendingPurchases u (settled u h db) = [].
Proof.
  unfold findPendingPurchases, settled. simpl.
  induction (purchases db) as [|p ps IH]; simpl; [reflexivity|].
  rewrite not_pending_after_settle. exact IH.
Qed.

Lemma ledgerOf_settled db u h :
  ledgerOf (settled u h db) u =
  mkSimpleCredit 100 (settledTransactions (ledgerOf db u) ++ [h]).
Proof. unfold ledgerOf at 1, settled. simpl. rewrite lookup_insert_eq. reflexivity. Qed.

(** ** claimCreatorEarnings *)

Lemma claimLoop_run env h l :
  forall remaining acc db,
    exists out,
      claimLoop env h l remaining acc db =
        (Ok out, set_earnings (saveAll env h (consumed remaining l)) db) /\
      length out = (length acc + length (consumed remaining l))%nat.
Proof.
  induction l as [|e r IH]; intros remaining acc db; simpl.
  - exists acc. split; [destruct db; reflexivity | lia].
  - destruct (remaining <=? 0).
    + exists acc. split; [destruct db; reflexivity | simpl; lia].
    + unfold CreatorEarnings_update. mstep.
      edestruct IH as (out & -> & Hlen). exists out. split; [reflexivity|].
      rewrite Hlen, length_app. simpl. lia.
Qed.

Lemma amount_check_passes amount :
  0 < amount -> (amount =? 0) || (amount <=? 0) = false.
Proof.
  intros H. destruct (Z.eqb_spec amount 0); [lia|].
  destruct (Z.leb_spec amount 0); [lia | reflexivity].
Qed.

Lemma claim_invalid_amount env db u amount :
  amount <= 0 ->
  claimCreatorEarnings env u amount db = (Err InvalidAmount, db).
Proof.
  intros H. unfold claimCreatorEarnings.
  destruct (Z.leb_spec amount 0); [|lia]. rewrite orb_true_r. reflexivity.
Qed.

Lemma claim_no_user env db u amount :
  0 < amount -> users db !! u = None ->
  claimCreatorEarnings env u amount db = (Err NoPayoutAddress, db).
Proof.
  intros H Hu. unfold claimCreatorEarnings.
  rewrite amount_check_passes by exact H. mstep. rewrite Hu. reflexivity.
Qed.

Lemma claim_no_address env db u amount creator :
  0 < amount -> users db !! u = Some creator ->
  user_walletAddress creator = "" ->
  claimCreatorEarnings env u amount db = (Err NoPayoutAddress, db).
Proof.
  intros H Hu Hw. unfold claimCreatorEarnings.
  rewrite amount_check_passes by exact H. mstep. rewrite Hu, Hw. reflexivity.
Qed.

Lemma claim_no_pending env db u amount creator :
  0 < amount -> users db !! u = Some creator ->
  user_walletAddress creator <> "" ->
  findPendingEarnings u db = [] ->
  claimCreatorEarnings env u amount db = (Err NoPendingEarnings, db).
Proof.
  intros H Hu Hw Hp. unfold claimCreatorEarnings.
  rewrite amount_check_passes by exact H. mstep. rewrite Hu.
  apply String.eqb_neq in Hw. rewrite Hw. mstep. rewrite Hp. reflexivity.
Qed.

Lemma claim_exceeds env db u amount creator :
  0 < amount -> users db !! u = Some creator ->
  user_walletAddress creator <> "" ->
  findPendingEarnings u db <> [] ->
  amount > pendingTotal db u ->
  claimCreatorEarnings env u amount db =
    (Err (ExceedsAvailable (pendingTotal db u)), db).
Proof.
  intros H Hu Hw Hp Hgt. unfold claimCreatorEarnings.
  rewrite amount_check_passes by exact H. mstep. rewrite Hu.
  apply String.eqb_neq in Hw. rewrite Hw. mstep.
  destruct (length (findPendingEarnings u db) =? 0)%nat eqn:E.
  { apply length_eqb_0 in E. contradiction. }
  fold (sumEarnings (findPendingEarnings u db)). fold (pendingTotal db u).
  destruct (Z.gtb_spec amount (pendingTotal db u)); [reflexivity | lia].
Qed.

Lemma claim_payout_failed env db u amount creator reason :
  0 < amount -> users db !! u = Some creator ->
  user_walletAddress creator <> "" ->
  findPendingEarnings u db <> [] ->
  amount <= pendingTotal db u ->
  transferPYUSD (wallet env) (user_walletAddress creator) amount
    = Thrown reason ->
  claimCreatorEarnings env u amount db = (Err (PayoutFailed reason), db).
Proof.
  intros H Hu Hw Hp Hle Ht. unfold claimCreatorEarnings.
  rewrite amount_check_passes by exact H. mstep. rewrite Hu.
  apply String.eqb_neq in Hw. rewrite Hw. mstep.
  destruct (length (findPendingEarnings u db) =? 0)%nat eqn:E.
  { apply length_eqb_0 in E. contradiction. }
  fold (sumEarnings (findPendingEarnings u db)). fold (pendingTotal db u).
  destruct (Z.gtb_spec amount (pendingTotal db u)); [lia|].
  rewrite Ht. reflexivity.
Qed.

Lemma claim_ok env db u amount creator tr :
  0 < amount -> users db !! u = Some creator ->
  user_walletAddress creator <> "" ->
  findPendingEarnings u db <> [] ->
  amount <= pendingTotal db u ->
  transferPYUSD (wallet env) (user_walletAddress creator) amount
    = Returned tr ->
  claimCreatorEarnings env u amount db =
    (Ok (EarningsClaimed amount
           (length (consumed amount (findPendingEarnings u db)))
           (pendingTotal db u - amount) (transfer_transactionHash tr)),
     afterClaim env u amount (transfer_transactionHash tr) db).
Proof.
  intros H Hu Hw Hp Hle Ht. unfold claimCreatorEarnings.
  rewrite amount_check_passes by exact H. mstep. rewrite Hu.
  apply String.eqb_neq in Hw. rewrite Hw. mstep.
  destruct (length (findPendingEarnings u db) =? 0)%nat eqn:E.
  { apply length_eqb_0 in E. contradiction. }
  fold (sumEarnings (findPendingEarnings u db)). fold (pendingTotal db u).
  destruct (Z.gtb_spec amount (pendingTotal db u)); [lia|].
  rewrite Ht. mstep.
  destruct (claimLoop_run env (transfer_transactionHash tr)
              (findPendingEarnings u db) amount [] db) as (out & E1 & Hlen).
  unfold bind at 1. rewrite E1. unfold User_inc. mstep.
  simpl in Hlen. rewrite Hlen. reflexivity.
Qed.

(** A claim either fails and leaves the database as it was, or pays out
    and leaves [afterClaim]. *)
Lemma claim_cases env db u amount :
  (exists e, claimCreatorEarnings env u amount db = (Err e, db)) \/
  (exists creator tr resp,
     0 < amount <= pendingTotal db u /\
     users db !! u = Some creator /\
     user_walletAddress creator <> "" /\
     findPendingEarnings u db <> [] /\
     transferPYUSD (wallet env) (user_walletAddress creator) amount
       = Returned tr /\
     claimCreatorEarnings env u amount db =
       (Ok resp, afterClaim env u amount (transfer_transactionHash tr) db)).
Proof.
  destruct (Z.lt_ge_cases 0 amount) as [Hpos|Hneg].
  2:{ left. eexists. apply claim_invalid_amount. lia. }
  destruct (users db !! u) as [creator|] eqn:Hu.
  2:{ left. eexists. apply claim_no_user; assumption. }
  destruct (String.eqb_spec (user_walletAddress creator) "") as [Hw|Hw].
  { left. eexists. eapply claim_no_address; eassumption. }
  assert (findPendingEarnings u db = [] \/ findPendingEarnings u db <> [])
    as [Hp|Hp]
    by (destruct (findPendingEarnings u db); [left|right]; congruence).
  { left. eexists. eapply claim_no_pending; eassumption. }
  destruct (Z.lt_ge_cases (pendingTotal db u) amount) as [Hgt|Hle].
  { left. eexists. eapply claim_exceeds; try eassumption. lia. }
  destruct (transferPYUSD (wallet env) (user_walletAddress creator) amount)
    as [tr|reason] eqn:Ht.
  - right. exists creator, tr. eexists.
    split_and!; try assumption; try reflexivity.
    eapply claim_ok; eassumption.
  - left. eexists. eapply claim_payout_failed; eassumption.
Qed.

(** ** The credit balance stays in range *)

Lemma createPurchase_cases env db buyerId contentId :
  contentsValid db ->
  (exists e, createPurchase env buyerId contentId db = (Err e, db)) \/
  createPurchase env buyerId contentId db =
    (Err InsufficientCredit, withLedger buyerId db) \/
  (exists c resp,
     contents db !! contentId = Some c /\
     0 <= content_price c <= creditBalance (ledgerOf db buyerId) /\
     createPurchase env buyerId contentId db =
       (Ok resp, purchased env buyerId contentId c db)).
Proof.
  intros Hv.
  destruct (contents db !! contentId) as [c|] eqn:Hc.
  2:{ left. exists ContentNotFound. unfold createPurchase. mstep.
      rewrite Hc. reflexivity. }
  destruct (Purchase_findOne buyerId contentId db) as [p|] eqn:Hp.
  { left. exists AlreadyPurchased. unfold createPurchase. mstep.
    rewrite Hc. mstep. rewrite Hp. reflexivity. }
  pose proof (Hv _ _ Hc) as [H0 _]. simpl in H0.
  destruct (Z.lt_ge_cases (creditBalance (ledgerOf db buyerId)) (content_price c))
    as [Hlt|Hle].
  - right. left. apply (createPurchase_insufficient _ _ _ _ _ Hc Hp Hlt).
  - right. right. exists c. eexists. split; [reflexivity|]. split; [lia|].
    apply (createPurchase_ok _ _ _ _ _ Hc Hp). lia.
Qed.

Lemma ledgerOf_in_range db u :
  creditInRange db -> 0 <= creditBalance (ledgerOf db u) <= ALLOWANCE.
Proof.
  intros H. unfold ledgerOf.
  destruct (credits db !! u) as [cr|] eqn:E; simpl.
  - exact (H _ _ E).
  - unfold ALLOWANCE. lia.
Qed.

Lemma creditInRange_withLedger db u :
  creditInRange db -> creditInRange (withLedger u db).
Proof.
  intros H. unfold creditInRange, withLedger. simpl.
  apply map_Forall_insert_2; [|exact H]. apply ledgerOf_in_range, H.
Qed.

Lemma creditInRange_purchased env db buyerId contentId c :
  creditInRange db ->
  0 <= content_price c <= creditBalance (ledgerOf db buyerId) ->
  creditInRange (purchased env buyerId contentId c db).
Proof.
  intros H Hp. unfold creditInRange, purchased. simpl.
  apply map_Forall_insert_2; [|exact H]. simpl.
  pose proof (ledgerOf_in_range db buyerId H). lia.
Qed.

Lemma creditInRange_settled db u h :
  creditInRange db -> creditInRange (settled u h db).
Proof.
  intros H. unfold creditInRange, settled. simpl.
  apply map_Forall_insert_2; [|exact H]. simpl. unfold ALLOWANCE. lia.
Qed.

Lemma contentsValid_purchased env db buyerId contentId c :
  contentsValid db -> contentsValid (purchased env buyerId contentId c db).
Proof.
  intros H i x. unfold purchased. simpl. intros E.
  apply lookup_alter_Some in E as [(-> & y & E & ->)|[_ E]].
  - apply lookup_alter_Some in E as [(_ & z & E & ->)|[Hne _]];
      [|congruence]. simpl. exact (H _ _ E).
  - apply lookup_alter_Some in E as [(-> & z & E & ->)|[_ E]].
    + simpl. exact (H _ _ E).
    + exact (H _ _ E).
Qed.

Lemma handle_preserves env r db :
  contentsValid db -> creditInRange db ->
  contentsValid (snd (handle env r db)) /\ creditInRange (snd (handle env r db)).
Proof.
  intros Hv Hc. destruct r as [b c|u|u h|u a]; simpl.
  - destruct (createPurchase_cases env db b c Hv)
      as [[e ->]|[->|(x & resp & _ & Hp & ->)]]; simpl.
    + auto.
    + split; [exact Hv | apply creditInRange_withLedger, Hc].
    + split; [apply contentsValid_purchased, Hv
             | apply creditInRange_purchased; assumption].
  - rewrite getCreditBalance_run. simpl.
    split; [exact Hv | apply creditInRange_withLedger, Hc].
  - destruct (settleCredit_cases db u h)
      as [[e ->]|(s & cr & resp & _ & _ & _ & _ & _ & ->)]; simpl.
    + auto.
    + split; [exact Hv | apply creditInRange_settled, Hc].
  - destruct (claim_cases env db u a)
      as [[e ->]|(cr & tr & resp & _ & _ & _ & _ & _ & ->)]; simpl; auto.
Qed.

Lemma run_preserves rs : forall db,
  contentsValid db -> creditInRange db ->
  contentsValid (run rs db) /\ creditInRange (run rs db).
Proof.
  induction rs as [|[env r] rs IH]; intros db Hv Hc; simpl.
  - auto.
  - destruct (handle_preserves env r db Hv Hc) as [Hv' Hc'].
    exact (IH _ Hv' Hc').
Qed.

(** C1. Starting from a database whose contents satisfy the content schema
    and whose credit balances lie in [0, 100], after any sequence of
    requests (balance queries, purchases, settlements and claims, failed
    ones included) every buyer's creditBalance lies in [0, 100].  In the
    state reached: a ledger record created on a balance query holds 100; a
    purchase of price p that succeeds had p <= creditBalance (100 when the
    record is created by the purchase) and leaves creditBalance - p; a
    settlement that succeeds leaves 100. *)
Theorem creditBalance_in_range rs db :
  contentsValid db ->
  creditInRange db ->
  let db' := run rs db in
  (forall u cr,
     credits db' !! u = Some cr -> 0 <= creditBalance cr <= 100) /\
  (forall u,
     credits db' !! u = None ->
     credits (snd (getCreditBalance u db')) !! u
       = Some (mkSimpleCredit 100 [])) /\
  (forall env b contentId resp db'',
     createPurchase env b contentId db' = (Ok resp, db'') ->
     exists c,
       contents db' !! contentId = Some c /\
       content_price c <= creditBalance (ledgerOf db' b) /\
       creditBalance (ledgerOf db'' b)
         = creditBalance (ledgerOf db' b) - content_price c) /\
  (forall u ref resp db'',
     settleCredit u ref db' = (Ok resp, db'') ->
     creditBalance (ledgerOf db'' u) = 100).
Proof.
  intros Hv Hc db'. subst db'.
  destruct (run_preserves rs db Hv Hc) as [_ Hc'].
  generalize dependent (run rs db). clear. intros db' Hc'. split_and!.
  - exact Hc'.
  - intros u Hu. rewrite getCreditBalance_run. unfold withLedger, ledgerOf.
    rewrite Hu. simpl. apply lookup_insert_eq.
  - intros env b contentId resp db'' H.
    apply createPurchase_inv in H as (c & Hcont & _ & [_ Hle] & -> & _).
    exists c. rewrite ledgerOf_purchased. auto.
  - intros u ref resp db'' H.
    destruct (settleCredit_cases db' u ref)
      as [[e He]|(h & cr & resp' & _ & _ & _ & _ & _ & Hok)].
    + rewrite He in H. discriminate.
    + rewrite Hok in H. injection H as _ <-. rewrite ledgerOf_settled.
      reflexivity.
Qed.

(** ** Sums of amounts *)

Lemma fold_left_amounts l : forall acc,
  fold_left (fun sum earning => sum + earning_amount earning) l acc =
  acc + sumEarnings l.
Proof.
  unfold sumEarnings.
  induction l as [|e l IH]; intros acc; simpl; [lia|].
  rewrite (IH (acc + earning_amount e)), (IH (0 + earning_amount e)). lia.
Qed.

Lemma sumEarnings_cons e l :
  sumEarnings (e :: l) = earning_amount e + sumEarnings l.
Proof. unfold sumEarnings at 1. simpl. rewrite fold_left_amounts. lia. Qed.

Lemma sumEarnings_app l1 l2 :
  sumEarnings (l1 ++ l2) = sumEarnings l1 + sumEarnings l2.
Proof.
  induction l1 as [|e l1 IH]; simpl; [reflexivity|].
  rewrite !sumEarnings_cons, IH. lia.
Qed.

Lemma sumEarnings_nonneg l :
  Forall (fun e => 0 <= earning_amount e) l -> 0 <= sumEarnings l.
Proof.
  induction 1 as [|e l He _ IH]; [reflexivity|].
  rewrite sumEarnings_cons. lia.
Qed.

(** ** The prefix the claim loop consumes *)

Lemma consumed_prefix l : forall remaining,
  exists rest, l = consumed remaining l ++ rest.
Proof.
  induction l as [|e l IH]; intros remaining; simpl.
  - exists []. reflexivity.
  - destruct (remaining <=? 0).
    + exists (e :: l). reflexivity.
    + destruct (IH (remaining - Z.min remaining (earning_amount e)))
        as [rest Hrest].
      exists rest. simpl. rewrite <- Hrest. reflexivity.
Qed.

(** The loop does not stop before the consumed earnings cover the amount. *)
Lemma consumed_covers l : forall remaining,
  remaining <= sumEarnings l -> remaining <= sumEarnings (consumed remaining l).
Proof.
  induction l as [|e l IH]; intros remaining Hle; simpl.
  - exact Hle.
  - destruct (Z.leb_spec remaining 0) as [Hr|Hr].
    + exact Hr.
    + rewrite sumEarnings_cons in Hle |- *.
      destruct (Z.le_gt_cases remaining (earning_amount e)) as [Hc|Hc].
      * rewrite Z.min_l by exact Hc. rewrite Z.sub_diag.
        destruct l; simpl; unfold sumEarnings; simpl; lia.
      * rewrite Z.min_r by lia.
        specialize (IH (remaining - earning_amount e)). lia.
Qed.

(** The loop stops as soon as they do: without the last consumed earning
    the amount is not covered. *)
Lemma consumed_minimal l : forall remaining us e,
  consumed remaining l = us ++ [e] -> sumEarnings us < remaining.
Proof.
  induction l as [|x l IH]; intros remaining us e H; simpl in H.
  - destruct us; discriminate.
  - destruct (Z.leb_spec remaining 0) as [Hr|Hr].
    + destruct us; discriminate.
    + destruct us as [|y us]; simpl in H.
      * exact Hr.
      * injection H as <- H. rewrite sumEarnings_cons.
        destruct (Z.le_gt_cases remaining (earning_amount x)) as [Hc|Hc].
        -- rewrite Z.min_l, Z.sub_diag in H by exact Hc.
           destruct l; simpl in H; destruct us; discriminate.
        -- rewrite Z.min_r in H by lia. apply IH in H. lia.
Qed.

(** When the amount is the sum of a prefix, the loop consumes exactly it. *)
Lemma consumed_aligned l1 : forall l2 remaining,
  Forall (fun e => 0 <= earning_amount e) l1 ->
  0 < remaining -> sumEarnings l1 = remaining ->
  sumEarnings (consumed remaining (l1 ++ l2)) = remaining.
Proof.
  induction l1 as [|x l1 IH]; intros l2 remaining Hnn Hpos Hsum.
  - unfold sumEarnings in Hsum. simpl in Hsum. lia.
  - pose proof (Forall_inv Hnn) as Hx. pose proof (Forall_inv_tail Hnn) as Hnn'.
    simpl in Hx. rewrite sumEarnings_cons in Hsum.
    pose proof (sumEarnings_nonneg _ Hnn') as Hs.
    simpl. destruct (Z.leb_spec remaining 0) as [Hr|Hr]; [lia|].
    rewrite sumEarnings_cons, Z.min_r by lia.
    destruct (Z.eq_dec (sumEarnings l1) 0) as [Hz|Hz].
    + replace (remaining - earning_amount x) with 0 by lia.
      destruct (l1 ++ l2); simpl; unfold sumEarnings; simpl; lia.
    + rewrite IH by (try assumption; lia). lia.
Qed.

(** ** Sorting by creation time *)

Lemma insertByCreatedAt_perm e l : Permutation (insertByCreatedAt e l) (e :: l).
Proof.
  induction l as [|x l IH]; simpl; [reflexivity|].
  destruct (earning_createdAt e <=? earning_createdAt x); [reflexivity|].
  rewrite IH. apply perm_swap.
Qed.

Lemma sortByCreatedAt_perm l : Permutation (sortByCreatedAt l) l.
Proof.
  induction l as [|x l IH]; simpl; [reflexivity|].
  rewrite insertByCreatedAt_perm. apply perm_skip, IH.
Qed.

Lemma insertByCreatedAt_sorted e l :
  oldestFirst l -> oldestFirst (insertByCreatedAt e l).
Proof.
  unfold oldestFirst. induction 1 as [|x l Hs IH Hx]; simpl.
  - constructor; constructor.
  - destruct (Z.leb_spec (earning_createdAt e) (earning_createdAt x)) as [Hle|Hgt].
    + constructor; [constructor; assumption|].
      constructor; [exact Hle|].
      eapply List.Forall_impl; [|exact Hx]. simpl. intros a Ha. lia.
    + constructor; [exact IH|].
      eapply Permutation_Forall.
      * symmetry. apply insertByCreatedAt_perm.
      * constructor; [lia | exact Hx].
Qed.

Lemma sortByCreatedAt_sorted l : oldestFirst (sortByCreatedAt l).
Proof.
  induction l as [|x l IH]; simpl.
  - constructor.
  - apply insertByCreatedAt_sorted, IH.
Qed.

Lemma insertByCreatedAt_first e l :
  Forall (fun x => earning_createdAt e <= earning_createdAt x) l ->
  insertByCreatedAt e l = e :: l.
Proof.
  destruct 1 as [|x l Hx _]; simpl; [reflexivity|].
  destruct (Z.leb_spec (earning_createdAt e) (earning_createdAt x));
    [reflexivity | lia].
Qed.

Lemma Forall_filter_keeps {A} (P : A -> Prop) f (l : list A) :
  Forall P l -> Forall P (List.filter f l).
Proof.
  induction 1 as [|x l Hx _ IH]; simpl; [constructor|].
  destruct (f x); [constructor; assumption | assumption].
Qed.

Lemma filter_insertByCreatedAt f e l :
  oldestFirst l ->
  List.filter f (insertByCreatedAt e l) =
  if f e then insertByCreatedAt e (List.filter f l) else List.filter f l.
Proof.
  unfold oldestFirst. induction 1 as [|x l Hs IH Hx]; simpl.
  - destruct (f e); reflexivity.
  - destruct (Z.leb_spec (earning_createdAt e) (earning_createdAt x)) as [Hle|Hgt].
    + simpl. destruct (f e); [|reflexivity].
      symmetry. apply insertByCreatedAt_first.
      apply (Forall_filter_keeps _ f (x :: l)).
      constructor; [exact Hle|].
      eapply List.Forall_impl; [|exact Hx]. simpl. intros a Ha. lia.
    + simpl. rewrite IH. destruct (f x), (f e); simpl; try reflexivity.
      destruct (Z.leb_spec (earning_createdAt e) (earning_createdAt x));
        [lia | reflexivity].
Qed.

(** Sorting and filtering commute: dropping documents from the collection
    drops them from the sorted result and moves nothing else. *)
Lemma filter_sortByCreatedAt f l :
  List.filter f (sortByCreatedAt l) = sortByCreatedAt (List.filter f l).
Proof.
  induction l as [|x l IH]; simpl; [reflexivity|].
  rewrite filter_insertByCreatedAt by apply sortByCreatedAt_sorted.
  rewrite IH. destruct (f x); reflexivity.
Qed.

Lemma sumEarnings_perm l1 l2 :
  Permutation l1 l2 -> sumEarnings l1 = sumEarnings l2.
Proof.
  induction 1 as [|x l1 l2 _ IH|x y l|l1 l2 l3 _ IH1 _ IH2].
  - reflexivity.
  - rewrite !sumEarnings_cons, IH. reflexivity.
  - rewrite !sumEarnings_cons. lia.
  - congruence.
Qed.

(** ** Distinct ids *)

Lemma ids_unique_filter f (l : list CreatorEarnings) :
  List.NoDup (map earning_id l) -> List.NoDup (map earning_id (List.filter f l)).
Proof.
  induction l as [|x l IH]; simpl; [auto|].
  intros H. apply NoDup_cons_iff in H as [Hx Hl].
  destruct (f x); simpl; [|auto].
  apply NoDup_cons_iff. split; [|auto].
  intros Hin. apply Hx. apply in_map_iff in Hin as (y & Hy & Hin).
  apply in_map_iff. exists y. split; [exact Hy|].
  apply filter_In in Hin. tauto.
Qed.

Lemma ids_unique_inj (l : list CreatorEarnings) x y :
  List.NoDup (map earning_id l) -> In x l -> In y l ->
  earning_id x = earning_id y -> x = y.
Proof.
  induction l as [|a l IH]; simpl; [tauto|].
  intros H. apply NoDup_cons_iff in H as [Ha Hl].
  intros [->|Hx] [->|Hy] E; auto.
  - exfalso. apply Ha. rewrite E. apply in_map. exact Hy.
  - exfalso. apply Ha. rewrite <- E. apply in_map. exact Hx.
Qed.

Lemma findPendingEarnings_ids_unique db u :
  earningIdsUnique db -> List.NoDup (map earning_id (findPendingEarnings u db)).
Proof.
  intros H. unfold findPendingEarnings.
  eapply Permutation_NoDup.
  - apply Permutation_map. symmetry. apply sortByCreatedAt_perm.
  - apply ids_unique_filter, H.
Qed.

Lemma findPendingEarnings_In db u e :
  In e (findPendingEarnings u db) ->
  In e (earnings db) /\ isPendingEarningOf u e = true.
Proof.
  intros H. unfold findPendingEarnings in H.
  apply (Permutation_in _ (sortByCreatedAt_perm _)) in H.
  apply filter_In in H. exact H.
Qed.

Lemma isOneOf_In used e : isOneOf used e = true <-> In (earning_id e) (map earning_id used).
Proof.
  unfold isOneOf. rewrite existsb_exists. split.
  - intros (i & Hi & E). apply N.eqb_eq in E. rewrite E. exact Hi.
  - intros Hi. exists (earning_id e). split; [exact Hi | apply N.eqb_refl].
Qed.

(** ** The writes of the claim loop *)

Lemma isOneOf_markClaimed env h used e :
  isOneOf used (markClaimed env h e) = isOneOf used e.
Proof. reflexivity. Qed.

Lemma isOneOf_cons e us x :
  isOneOf (e :: us) x = (earning_id x =? earning_id e)%N || isOneOf us x.
Proof. reflexivity. Qed.

Lemma NoDup_app_apart {A} (l1 l2 : list A) a :
  List.NoDup (l1 ++ l2) -> In a l1 -> In a l2 -> False.
Proof.
  induction l1 as [|x l1 IH]; simpl; [tauto|].
  intros H. apply NoDup_cons_iff in H as [Hx Hl].
  intros [->|H1] H2.
  - apply Hx, in_or_app. right. exact H2.
  - exact (IH Hl H1 H2).
Qed.

(** One [save()] per consumed earning amounts to marking all of them. *)
Lemma saveAll_claimAll env h used : forall es,
  (forall e x, In e used -> In x es -> earning_id x = earning_id e -> x = e) ->
  List.NoDup (map earning_id used) ->
  saveAll env h used es = claimAll env h used es.
Proof.
  induction used as [|e us IH]; intros es Hinj Hnd.
  - unfold saveAll, claimAll. simpl. symmetry. apply map_id.
  - simpl in Hnd. apply NoDup_cons_iff in Hnd as [He Hus].
    change (saveAll env h (e :: us) es)
      with (saveAll env h us
              (map (fun x => if (earning_id x =? earning_id e)%N
                             then markClaimed env h e else x) es)).
    rewrite IH; [|clear IH|exact Hus].
    + unfold claimAll. rewrite map_map. apply map_ext_in. intros x Hx.
      rewrite isOneOf_cons.
      destruct (N.eqb_spec (earning_id x) (earning_id e)) as [E|E]; simpl.
      * rewrite (Hinj e x (or_introl eq_refl) Hx E).
        rewrite isOneOf_markClaimed.
        destruct (isOneOf us e) eqn:Hin; [|reflexivity].
        apply isOneOf_In in Hin. contradiction.
      * reflexivity.
    + intros e' x' He' Hx' E.
      apply in_map_iff in Hx' as (x & <- & Hx).
      destruct (N.eqb_spec (earning_id x) (earning_id e)) as [E'|E'].
      * exfalso. apply He. simpl in E. rewrite E. apply in_map. exact He'.
      * apply Hinj; [right; exact He' | exact Hx | exact E].
Qed.

Lemma filter_claimAll u env h used es :
  List.filter (isPendingEarningOf u) (claimAll env h used es) =
  List.filter (fun x => negb (isOneOf used x))
    (List.filter (isPendingEarningOf u) es).
Proof.
  unfold claimAll. induction es as [|x es IH]; simpl; [reflexivity|].
  destruct (isOneOf used x) eqn:Hin.
  - replace (isPendingEarningOf u (markClaimed env h x)) with false
      by (unfold isPendingEarningOf; simpl; rewrite andb_false_r; reflexivity).
    destruct (isPendingEarningOf u x); simpl; rewrite ?Hin; exact IH.
  - destruct (isPendingEarningOf u x); simpl; rewrite ?Hin, IH; reflexivity.
Qed.

Lemma filter_none {A} f (l : list A) :
  (forall x, In x l -> f x = false) -> List.filter f l = [].
Proof.
  induction l as [|x l IH]; intros H; simpl; [reflexivity|].
  rewrite (H x) by (left; reflexivity). apply IH. intros y Hy. apply H.
  right. exact Hy.
Qed.

Lemma filter_all {A} f (l : list A) :
  (forall x, In x l -> f x = true) -> List.filter f l = l.
Proof.
  induction l as [|x l IH]; intros H; simpl; [reflexivity|].
  rewrite (H x) by (left; reflexivity). f_equal. apply IH. intros y Hy.
  apply H. right. exact Hy.
Qed.

(** After the loop, the pending earnings are the ones it did not reach,
    in the same order. *)
Lemma pending_after_claimAll env h db u used rest :
  earningIdsUnique db ->
  findPendingEarnings u db = used ++ rest ->
  sortByCreatedAt
    (List.filter (isPendingEarningOf u) (claimAll env h used (earnings db)))
  = rest.
Proof.
  intros Hnd Hsplit.
  pose proof (findPendingEarnings_ids_unique db u Hnd) as Hids.
  rewrite Hsplit, map_app in Hids.
  rewrite filter_claimAll, <- filter_sortByCreatedAt.
  fold (findPendingEarnings u db). rewrite Hsplit, List.filter_app.
  rewrite filter_none, filter_all; [reflexivity| |].
  - intros x Hx. destruct (isOneOf used x) eqn:Hin; [|reflexivity].
    exfalso. apply isOneOf_In in Hin.
    eapply (NoDup_app_apart _ _ _ Hids); [exact Hin | apply in_map; exact Hx].
  - intros x Hx. replace (isOneOf used x) with true; [reflexivity|].
    symmetry. apply isOneOf_In, in_map, Hx.
Qed.

Lemma afterClaim_earnings env db u amount h :
  earningIdsUnique db ->
  earnings (afterClaim env u amount h db) =
  claimAll env h (consumed amount (findPendingEarnings u db)) (earnings db).
Proof.
  intros Hnd. unfold afterClaim. simpl.
  destruct (consumed_prefix (findPendingEarnings u db) amount) as [rest Hsplit].
  apply saveAll_claimAll.
  - intros e x He Hx E. symmetry.
    apply (ids_unique_inj (earnings db)); [exact Hnd| |exact Hx|congruence].
    apply (findPendingEarnings_In db u). rewrite Hsplit.
    apply in_or_app. left. exact He.
  - pose proof (findPendingEarnings_ids_unique db u Hnd) as Hids.
    rewrite Hsplit, map_app in Hids. apply NoDup_app_remove_r in Hids.
    exact Hids.
Qed.

Lemma afterClaim_pending env db u amount h rest :
  earningIdsUnique db ->
  findPendingEarnings u db =
    consumed amount (findPendingEarnings u db) ++ rest ->
  findPendingEarnings u (afterClaim env u amount h db) = rest.
Proof.
  intros Hnd Hsplit. unfold findPendingEarnings at 1.
  rewrite afterClaim_earnings by exact Hnd.
  apply pending_after_claimAll; assumption.
Qed.

Lemma findPendingEarnings_nonneg db u :
  earningsValid db ->
  Forall (fun e => 0 <= earning_amount e) (findPendingEarnings u db).
Proof.
  intros H. apply List.Forall_forall. intros e He.
  apply findPendingEarnings_In in He as [He _].
  unfold earningsValid in H. rewrite List.Forall_forall in H. exact (H e He).
Qed.

(** C4. A successful claimCreatorEarnings(creator, A) walks the creator's
    pending earnings oldest first (createdAt ascending) and marks a prefix
    of them entirely claimed, stopping as soon as the consumed earnings cover
    A; the earnings it did not reach stay pending, in the same order.
    Consequently the sum of the creator's pending earnings decreases by the
    sum of the consumed earnings, which is at least A, and is exactly A if
    and only if A is the sum of a prefix of the pending list (A aligns with
    an earning boundary). *)
Theorem claim_consumes_oldest_first env db u A creator tr :
  earningIdsUnique db ->
  earningsValid db ->
  0 < A ->
  users db !! u = Some creator ->
  user_walletAddress creator <> "" ->
  A <= pendingTotal db u ->
  transferPYUSD (wallet env) (user_walletAddress creator) A = Returned tr ->
  let h := transfer_transactionHash tr in
  let pend := findPendingEarnings u db in
  let used := consumed A pend in
  let db' := afterClaim env u A h db in
  claimCreatorEarnings env u A db =
    (Ok (EarningsClaimed A (length used) (pendingTotal db u - A) h), db') /\
  oldestFirst pend /\
  (exists rest, pend = used ++ rest /\ findPendingEarnings u db' = rest) /\
  earnings db' = claimAll env h used (earnings db) /\
  A <= sumEarnings used /\
  (forall us e, used = us ++ [e] -> sumEarnings us < A) /\
  pendingTotal db u - pendingTotal db' u = sumEarnings used /\
  pendingTotal db u - pendingTotal db' u >= A /\
  (pendingTotal db u - pendingTotal db' u = A <->
   exists l1 l2, pend = l1 ++ l2 /\ sumEarnings l1 = A).
Proof.
  intros Hnd Hval Hpos Hu Hw Hle Ht h pend used db'.
  assert (Hne : findPendingEarnings u db <> []).
  { intros E. unfold pendingTotal in Hle. rewrite E in Hle.
    unfold sumEarnings in Hle. simpl in Hle. lia. }
  destruct (consumed_prefix pend A) as [rest Hsplit]. fold used in Hsplit.
  assert (Hrest : findPendingEarnings u db' = rest)
    by (apply afterClaim_pending; assumption).
  assert (Hcov : A <= sumEarnings used) by (apply consumed_covers; exact Hle).
  assert (Hdec : pendingTotal db u - pendingTotal db' u = sumEarnings used).
  { unfold pendingTotal. rewrite Hrest. fold pend.
    rewrite Hsplit at 1. rewrite sumEarnings_app. lia. }
  split_and!.
  - eapply claim_ok; eassumption.
  - apply sortByCreatedAt_sorted.
  - exists rest. split; assumption.
  - apply afterClaim_earnings, Hnd.
  - exact Hcov.
  - intros us e E. eapply consumed_minimal. exact E.
  - exact Hdec.
  - lia.
  - rewrite Hdec. split.
    + intros E. exists used, rest. split; assumption.
    + intros (l1 & l2 & E & Hsum). unfold used. rewrite E.
      apply consumed_aligned; try assumption.
      pose proof (findPendingEarnings_nonneg db u Hval) as Hnn.
      fold pend in Hnn. rewrite E in Hnn.
      apply Forall_app in Hnn. tauto.
Qed.

(** ** Claims above the pending total, and failed payouts *)


(** C7. When the payout transfer that claimCreatorEarnings invokes fails,
    the handler fails with PayoutFailed and the database is exactly as it
    was: no earning record and no creator aggregate is touched, every
    pending earning is still pending. *)
Theorem payout_failure_changes_nothing env db u A creator reason :
  0 < A ->
  users db !! u = Some creator ->
  user_walletAddress creator <> "" ->
  findPendingEarnings u db <> [] ->
  A <= pendingTotal db u ->
  transferPYUSD (wallet env) (user_walletAddress creator) A = Thrown reason ->
  let r := claimCreatorEarnings env u A db in
  fst r = Err (PayoutFailed reason) /\
  snd r = db /\
  earnings (snd r) = earnings db /\
  users (snd r) = users db /\
  findPendingEarnings u (snd r) = findPendingEarnings u db /\
  pendingTotal (snd r) u = pendingTotal db u /\
  totalEarningsOf (snd r) u = totalEarningsOf db u.
Proof.
  intros Hpos Hu Hw Hp Hle Ht r. subst r.
  rewrite (claim_payout_failed _ _ _ _ _ _ Hpos Hu Hw Hp Hle Ht). simpl.
  auto 8.
Qed.

(** ** Settlement and its replay *)

Lemma recorded_has_ledger h db u :
  recorded h db u ->
  exists cr, credits db !! u = Some cr /\
             existsb (String.eqb h) (settledTransactions cr) = true.
Proof.
  unfold recorded, ledgerOf. destruct (credits db !! u) as [cr|]; simpl.
  - eauto.
  - discriminate.
Qed.

Lemma recorded_withLedger h db u v :
  recorded h db u -> recorded h (withLedger v db) u.
Proof. unfold recorded. rewrite ledgerOf_withLedger. auto. Qed.

Lemma recorded_purchased h env db u b contentId c :
  recorded h db u -> recorded h (purchased env b contentId c db) u.
Proof.
  unfold recorded. intros H.
  destruct (decide (b = u)) as [->|Hne].
  - rewrite ledgerOf_purchased. exact H.
  - unfold ledgerOf, purchased in *. simpl.
    rewrite lookup_insert_ne by exact Hne. exact H.
Qed.

Lemma recorded_settled h db u v h' :
  recorded h db u -> recorded h (settled v h' db) u.
Proof.
  unfold recorded. intros H.
  destruct (decide (v = u)) as [->|Hne].
  - unfold ledgerOf at 1. unfold settled. simpl. rewrite lookup_insert_eq.
    simpl. rewrite existsb_app, H. reflexivity.
  - unfold ledgerOf, settled in *. simpl.
    rewrite lookup_insert_ne by exact Hne. exact H.
Qed.

Lemma handle_contentsValid env r db :
  contentsValid db -> contentsValid (snd (handle env r db)).
Proof.
  intros Hv. destruct r as [b c|v|v ref|v a]; simpl.
  - destruct (createPurchase_cases env db b c Hv)
      as [[e ->]|[->|(x & resp & _ & _ & ->)]]; simpl; auto.
    apply contentsValid_purchased, Hv.
  - rewrite getCreditBalance_run. exact Hv.
  - destruct (settleCredit_cases db v ref)
      as [[e ->]|(s & cr & resp & _ & _ & _ & _ & _ & ->)]; exact Hv.
  - destruct (claim_cases env db v a)
      as [[e ->]|(cr & tr & resp & _ & _ & _ & _ & _ & ->)]; exact Hv.
Qed.

Lemma handle_keeps_recorded h u env r db :
  contentsValid db -> recorded h db u -> recorded h (snd (handle env r db)) u.
Proof.
  intros Hv Hr. destruct r as [b c|v|v ref|v a]; simpl.
  - destruct (createPurchase_cases env db b c Hv)
      as [[e ->]|[->|(x & resp & _ & _ & ->)]]; simpl.
    + exact Hr.
    + apply recorded_withLedger, Hr.
    + apply recorded_purchased, Hr.
  - rewrite getCreditBalance_run. simpl. apply recorded_withLedger, Hr.
  - destruct (settleCredit_cases db v ref)
      as [[e ->]|(s & cr & resp & _ & _ & _ & _ & _ & ->)]; simpl.
    + exact Hr.
    + apply recorded_settled, Hr.
  - destruct (claim_cases env db v a)
      as [[e ->]|(cr & tr & resp & _ & _ & _ & _ & _ & ->)]; simpl; exact Hr.
Qed.

Lemma run_keeps_recorded h u rs : forall db,
  contentsValid db -> recorded h db u -> recorded h (run rs db) u.
Proof.
  induction rs as [|[env r] rs IH]; intros db Hv Hr; simpl; [exact Hr|].
  apply IH.
  - apply handle_contentsValid, Hv.
  - apply handle_keeps_recorded; assumption.
Qed.

Lemma recorded_after_settle db u h : recorded h (settled u h db) u.
Proof.
  unfold recorded. rewrite ledgerOf_settled. simpl.
  rewrite existsb_app. simpl. rewrite String.eqb_refl.
  rewrite orb_true_l, orb_true_r. reflexivity.
Qed.

Lemma replay_after_settle db u h :
  h <> "" -> recorded h db u ->
  (findPendingPurchases u db = [] ->
   settleCredit u (JsString h) db = (Err NothingToSettle, db)) /\
  (findPendingPurchases u db <> [] ->
   settleCredit u (JsString h) db = (Err DuplicateSettlement, db)).
Proof.
  intros Hh Hr. apply recorded_has_ledger in Hr as (cr & Hcr & Hin). split.
  - intros Hp. eapply settleCredit_nothing; eassumption.
  - intros Hp. eapply settleCredit_duplicate; eassumption.
Qed.

(** C2, as the code has it. After a successful settleCredit(buyer, ref) the
    buyer's creditBalance equals the allowance (100).  A later
    settleCredit(buyer, ref) with the same reference, after any requests in
    between, fails and changes nothing: with DuplicateSettlement when the
    buyer has an unsettled purchase at that time, and with NothingToSettle
    when there is none, which is the case when the call is repeated at
    once. *)
Theorem settle_resets_credit_and_rejects_replay db u ref resp db1 :
  contentsValid db ->
  settleCredit u ref db = (Ok resp, db1) ->
  creditBalance (ledgerOf db1 u) = ALLOWANCE /\
  settleCredit u ref db1 = (Err NothingToSettle, db1) /\
  forall rs,
    let db2 := run rs db1 in
    (findPendingPurchases u db2 = [] ->
     settleCredit u ref db2 = (Err NothingToSettle, db2)) /\
    (findPendingPurchases u db2 <> [] ->
     settleCredit u ref db2 = (Err DuplicateSettlement, db2)).
Proof.
  intros Hv H.
  destruct (settleCredit_cases db u ref)
    as [[e He]|(h & cr & resp' & -> & Hh & Hcr & Hp & Hin & Hok)].
  { rewrite He in H. discriminate. }
  rewrite Hok in H. injection H as _ <-.
  pose proof (recorded_after_settle db u h) as Hrec.
  split; [rewrite ledgerOf_settled; reflexivity|]. split.
  - apply (replay_after_settle _ _ _ Hh Hrec), findPendingPurchases_settled.
  - intros rs db2. apply replay_after_settle; [exact Hh|].
    apply run_keeps_recorded; [exact Hv | exact Hrec].
Qed.

(** ** The code at concrete inputs *)

(** C2 as stated fails: the buyer bought one content and settled with
    "0xabc"; repeating the call finds no unsettled purchase and fails with
    NothingToSettle, before the reference is compared. *)
Lemma replay_is_not_duplicate :
  settleCredit 1%N (JsString "0xabc") dbPurchased
    = (Ok (CreditSettled 50 1 100), dbSettled) /\
  settleCredit 1%N (JsString "0xabc") dbSettled
    = (Err NothingToSettle, dbSettled) /\
  ~ replayIsDuplicate dbPurchased 1%N (JsString "0xabc").
Proof.
  split; [vm_compute; reflexivity|]. split; [vm_compute; reflexivity|].
  intros H.
  destruct (H (CreditSettled 50 1 100) dbSettled) as [_ E].
  - vm_compute. reflexivity.
  - vm_compute in E. discriminate.
Qed.


(** C8. The buyer settles with the reference "hello", which has not the
    length of a transaction hash; the handler accepts it, resets the balance
    to 100 and records "hello" as a settled transaction. *)
Lemma settleCredit_accepts_any_nonempty_string :
  hasTransactionHashLength "hello" = false /\
  settleCredit 1%N (JsString "hello") dbPurchased =
    (Ok (CreditSettled 50 1 100), settled 1%N "hello" dbPurchased) /\
  ledgerOf (settled 1%N "hello" dbPurchased) 1%N =
    mkSimpleCredit 100 ["hello"].
Proof.
  split; [reflexivity|]. split.
  - apply settleCredit_ok with (cr := mkSimpleCredit 50 []).
    + vm_compute. reflexivity.
    + vm_compute. discriminate.
    + discriminate.
    + reflexivity.
  - vm_compute. reflexivity.
Qed.


(** ** The theorems at work on the small marketplace *)

Lemma exampleDb_contentsValid : contentsValid exampleDb.
Proof.
  unfold contentsValid, exampleDb. simpl.
  repeat (apply map_Forall_insert_2; [simpl; lia|]).
  apply map_Forall_empty.
Defined.

Lemma exampleDb_creditInRange : creditInRange exampleDb.
Proof.
  unfold creditInRange, exampleDb, ALLOWANCE. simpl.
  repeat (apply map_Forall_insert_2; [simpl; lia|]).
  apply map_Forall_empty.
Defined.

Lemma creditBalance_in_range_witness :
  contentsValid exampleDb /\ creditInRange exampleDb /\
  credits (run exampleRequests exampleDb) !! 1%N
    = Some (mkSimpleCredit 70 ["0xabc"]) /\
  0 <= creditBalance (mkSimpleCredit 70 ["0xabc"]) <= 100.
Proof.
  split; [exact exampleDb_contentsValid|].
  split; [exact exampleDb_creditInRange|].
  split; [vm_compute; reflexivity|].
  apply (proj1 (creditBalance_in_range exampleRequests exampleDb
                  exampleDb_contentsValid exampleDb_creditInRange) 1%N).
  vm_compute. reflexivity.
Defined.


Lemma createPurchase_records_one_pending_earning_witness :
  createPurchase (mkEnv 1000 exampleWallet) 1%N 10%N exampleDb
    = (Ok (PurchaseCreated 100%N 50 "credit_1000" 50), dbPurchased) /\
  exists c p e,
    contents exampleDb !! 10%N = Some c /\
    purchases dbPurchased = purchases exampleDb ++ [p] /\
    earnings dbPurchased = earnings exampleDb ++ [e] /\
    purchase_buyer p = 1%N /\
    purchase_content p = 10%N /\
    purchase_amount p = content_price c /\
    earning_creator e = content_creator c /\
    earning_purchase e = purchase_id p /\
    earning_status e = pending /\
    earning_amount e = purchase_amount p.
Proof.
  assert (H : createPurchase (mkEnv 1000 exampleWallet) 1%N 10%N exampleDb
              = (Ok (PurchaseCreated 100%N 50 "credit_1000" 50), dbPurchased))
    by (vm_compute; reflexivity).
  split; [exact H|].
  exact (createPurchase_records_one_pending_earning _ _ _ _ _ _ H).
Defined.


Lemma dbPurchased_contentsValid : contentsValid dbPurchased.
Proof.
  apply (handle_contentsValid (mkEnv 1000 exampleWallet)
           (ReqCreatePurchase 1%N 10%N) exampleDb exampleDb_contentsValid).
Defined.

Lemma settle_resets_credit_and_rejects_replay_witness :
  settleCredit 1%N (JsString "0xabc") dbPurchased
    = (Ok (CreditSettled 50 1 100), dbSettled) /\
  creditBalance (ledgerOf dbSettled 1%N) = ALLOWANCE /\
  settleCredit 1%N (JsString "0xabc") dbSettled
    = (Err NothingToSettle, dbSettled) /\
  let db2 := run [(mkEnv 1200 exampleWallet, ReqCreatePurchase 1%N 12%N)]
                 dbSettled in
  settleCredit 1%N (JsString "0xabc") db2 = (Err DuplicateSettlement, db2).
Proof.
  assert (H : settleCredit 1%N (JsString "0xabc") dbPurchased
              = (Ok (CreditSettled 50 1 100), dbSettled))
    by (vm_compute; reflexivity).
  split; [exact H|].
  destruct (settle_resets_credit_and_rejects_replay _ _ _ _ _
              dbPurchased_contentsValid H) as (W1 & W2 & W3).
  split; [exact W1|]. split; [exact W2|].
  apply (W3 [(mkEnv 1200 exampleWallet, ReqCreatePurchase 1%N 12%N)]).
  vm_compute. discriminate.
Defined.


Lemma payout_failure_changes_nothing_witness :
  transferPYUSD offlineWallet "0xc0de" 30
    = Thrown "Platform wallet not initialized" /\
  fst (claimCreatorEarnings (mkEnv 2000 offlineWallet) 2%N 30 dbPurchased)
    = Err (PayoutFailed "Platform wallet not initialized") /\
  snd (claimCreatorEarnings (mkEnv 2000 offlineWallet) 2%N 30 dbPurchased)
    = dbPurchased.
Proof.
  split; [reflexivity|].
  destruct (payout_failure_changes_nothing (mkEnv 2000 offlineWallet)
              dbPurchased 2%N 30 (mkUser "0xc0de" 50 0)
              "Platform wallet not initialized") as (W1 & W2 & _).
  - lia.
  - vm_compute. reflexivity.
  - discriminate.
  - vm_compute. discriminate.
  - assert (E : pendingTotal dbPurchased 2%N = 50) by (vm_compute; reflexivity).
    rewrite E. lia.
  - reflexivity.
  - split; [exact W1 | exact W2].
Defined.

Lemma dbTwoSales_earningIdsUnique : earningIdsUnique dbTwoSales.
Proof.
  unfold earningIdsUnique.
  assert (E : map earning_id (earnings dbTwoSales) = [101%N; 103%N])
    by (vm_compute; reflexivity).
  rewrite E. repeat constructor; simpl; intuition discriminate.
Defined.

Lemma dbTwoSales_earningsValid : earningsValid dbTwoSales.
Proof.
  unfold earningsValid.
  assert (E : map earning_amount (earnings dbTwoSales) = [50; 30])
    by (vm_compute; reflexivity).
  apply List.Forall_forall. intros e He.
  apply (in_map earning_amount) in He. rewrite E in He. simpl in He.
  intuition lia.
Defined.

Lemma claim_consumes_oldest_first_witness :
  map earning_amount (findPendingEarnings 2%N dbTwoSales) = [50; 30] /\
  fst (claimCreatorEarnings (mkEnv 2000 exampleWallet) 2%N 60 dbTwoSales)
    = Ok (EarningsClaimed 60 2 20 "0xab12") /\
  pendingTotal dbTwoSales 2%N
  - pendingTotal (afterClaim (mkEnv 2000 exampleWallet) 2%N 60 "0xab12"
                    dbTwoSales) 2%N >= 60.
Proof.
  split; [vm_compute; reflexivity|].
  assert (E : pendingTotal dbTwoSales 2%N = 80) by (vm_compute; reflexivity).
  destruct (claim_consumes_oldest_first (mkEnv 2000 exampleWallet) dbTwoSales
              2%N 60 (mkUser "0xc0de" 80 0) (mkTransferResult "0xab12" true)
              dbTwoSales_earningIdsUnique dbTwoSales_earningsValid)
    as (W1 & _ & _ & _ & _ & _ & _ & W2 & _).
  - lia.
  - vm_compute. reflexivity.
  - discriminate.
  - rewrite E. lia.
  - reflexivity.
  - split; [|exact W2]. rewrite W1. vm_compute. reflexivity.
Defined.

(** ** More on createPurchase *)

Lemma hasPurchased_In db b c :
  hasPurchased db b c <->
  exists p, In p (purchases db) /\ purchase_buyer p = b /\ purchase_content p = c.
Proof.
  unfold hasPurchased, Purchase_findOne. split.
  - intros [p H]. apply find_some in H as [Hin H].
    apply andb_true_iff in H as [H1 H2].
    apply N.eqb_eq in H1, H2. eauto.
  - intros (p & Hin & <- & <-).
    destruct (find _ (purchases db)) as [q|] eqn:E; [eauto|].
    exfalso. apply (find_none _ _ E) in Hin. simpl in Hin.
    rewrite !N.eqb_refl in Hin. discriminate.
Qed.

Lemma createPurchase_not_found env db b c :
  contents db !! c = None ->
  createPurchase env b c db = (Err ContentNotFound, db).
Proof. intros H. unfold createPurchase. mstep. rewrite H. reflexivity. Qed.

Lemma createPurchase_already env db b c x :
  contents db !! c = Some x -> hasPurchased db b c ->
  createPurchase env b c db = (Err AlreadyPurchased, db).
Proof.
  intros H [p Hp]. unfold createPurchase. mstep. rewrite H. mstep.
  rewrite Hp. reflexivity.
Qed.

(** X1. createPurchase looks the content up first, then looks for an
    earlier purchase, and only then touches the ledger: an unknown content
    gives ContentNotFound and a content the buyer holds gives
    AlreadyPurchased, whatever the balance or the price, and in both cases
    nothing is written, not even the buyer's ledger record. *)
Theorem createPurchase_checks_before_ledger env db b c :
  (contents db !! c = None ->
   createPurchase env b c db = (Err ContentNotFound, db)) /\
  (is_Some (contents db !! c) -> hasPurchased db b c ->
   createPurchase env b c db = (Err AlreadyPurchased, db)).
Proof.
  split.
  - apply createPurchase_not_found.
  - intros [x Hx] Hp. eapply createPurchase_already; eassumption.
Qed.

Lemma hasPurchased_purchased env db b c x :
  hasPurchased (purchased env b c x db) b c.
Proof.
  apply hasPurchased_In. exists (newPurchase env b c x db).
  split; [|split; reflexivity].
  unfold purchased. simpl. apply in_or_app. right. left. reflexivity.
Qed.

Lemma hasPurchased_app db db' b c l :
  purchases db' = purchases db ++ l ->
  hasPurchased db b c -> hasPurchased db' b c.
Proof.
  intros E H. apply hasPurchased_In in H as (p & Hin & Hb & Hc).
  apply hasPurchased_In. exists p. rewrite E.
  split; [apply in_or_app; left; exact Hin | auto].
Qed.

Lemma hasPurchased_settled db u h b c :
  hasPurchased db b c -> hasPurchased (settled u h db) b c.
Proof.
  intros H. apply hasPurchased_In in H as (p & Hin & Hb & Hc).
  apply hasPurchased_In.
  exists (if isPendingPurchaseOf u p
          then setPurchaseHash ("settled_" +:+ h) p else p).
  split.
  - unfold settled. simpl.
    apply (in_map (fun p => if isPendingPurchaseOf u p
                            then setPurchaseHash ("settled_" +:+ h) p
                            else p)).
    exact Hin.
  - destruct (isPendingPurchaseOf u p); simpl; auto.
Qed.

Lemma handle_keeps_hasPurchased env r db b c :
  contentsValid db -> hasPurchased db b c ->
  hasPurchased (snd (handle env r db)) b c.
Proof.
  intros Hv Hp. destruct r as [b' c'|v|v ref|v a]; simpl.
  - destruct (createPurchase_cases env db b' c' Hv)
      as [[e ->]|[->|(x & resp & _ & _ & ->)]]; simpl.
    + exact Hp.
    + exact Hp.
    + eapply hasPurchased_app; [|exact Hp]. reflexivity.
  - rewrite getCreditBalance_run. exact Hp.
  - destruct (settleCredit_cases db v ref)
      as [[e ->]|(s & cr & resp & _ & _ & _ & _ & _ & ->)]; simpl.
    + exact Hp.
    + apply hasPurchased_settled, Hp.
  - destruct (claim_cases env db v a)
      as [[e ->]|(cr & tr & resp & _ & _ & _ & _ & _ & ->)]; simpl; exact Hp.
Qed.

Lemma handle_keeps_content env r db c :
  contentsValid db -> is_Some (contents db !! c) ->
  is_Some (contents (snd (handle env r db)) !! c).
Proof.
  intros Hv Hc. destruct r as [b' c'|v|v ref|v a]; simpl.
  - destruct (createPurchase_cases env db b' c' Hv)
      as [[e ->]|[->|(x & resp & _ & _ & ->)]]; simpl; try exact Hc.
    rewrite !lookup_alter_is_Some. exact Hc.
  - rewrite getCreditBalance_run. exact Hc.
  - destruct (settleCredit_cases db v ref)
      as [[e ->]|(s & cr & resp & _ & _ & _ & _ & _ & ->)]; exact Hc.
  - destruct (claim_cases env db v a)
      as [[e ->]|(cr & tr & resp & _ & _ & _ & _ & _ & ->)]; exact Hc.
Qed.

Lemma run_keeps_purchase rs : forall db b c,
  contentsValid db -> is_Some (contents db !! c) -> hasPurchased db b c ->
  contentsValid (run rs db) /\ is_Some (contents (run rs db) !! c) /\
  hasPurchased (run rs db) b c.
Proof.
  induction rs as [|[env r] rs IH]; intros db b c Hv Hc Hp; simpl; [auto|].
  apply IH.
  - apply handle_contentsValid, Hv.
  - apply handle_keeps_content; assumption.
  - apply handle_keeps_hasPurchased; assumption.
Qed.

(** X2. Once createPurchase has succeeded for a buyer and a content, every
    later createPurchase for the same pair fails with AlreadyPurchased and
    writes nothing, whatever requests were handled in between: purchases
    are never deleted and keep their buyer and content. *)
Theorem createPurchase_only_once env db b c resp db1 :
  contentsValid db ->
  createPurchase env b c db = (Ok resp, db1) ->
  forall rs env',
    createPurchase env' b c (run rs db1) = (Err AlreadyPurchased, run rs db1).
Proof.
  intros Hv H rs env'.
  apply createPurchase_inv in H as (x & Hx & _ & _ & -> & _).
  destruct (run_keeps_purchase rs (purchased env b c x db) b c)
    as (_ & [y Hy] & Hp).
  - apply contentsValid_purchased, Hv.
  - unfold purchased. simpl. rewrite !lookup_alter_is_Some. eauto.
  - apply hasPurchased_purchased.
  - eapply createPurchase_already; eassumption.
Qed.


(** X4. A successful createPurchase counts the sale twice: the Purchase
    pre-save hook and the controller both increment the content's
    salesCount, so it grows by 2 and the totalRevenue virtual by twice the
    price, while price and creator are untouched; the hook also adds the
    price to the totalEarnings of the creator's user record. *)
Theorem createPurchase_counts_the_sale_twice env db b c resp db' x :
  createPurchase env b c db = (Ok resp, db') ->
  contents db !! c = Some x ->
  exists x',
    contents db' !! c = Some x' /\
    content_salesCount x' = content_salesCount x + 2 /\
    content_price x' = content_price x /\
    content_creator x' = content_creator x /\
    totalRevenue x' = totalRevenue x + 2 * content_price x /\
    totalEarningsOf db' (content_creator x) =
      match users db !! content_creator x with
      | Some u => user_totalEarnings u + content_price x
      | None => 0
      end.
Proof.
  intros H Hx.
  apply createPurchase_inv in H as (y & Hy & _ & _ & -> & _).
  rewrite Hx in Hy. injection Hy as <-.
  exists (incSales (incSales x)). unfold purchased, totalEarningsOf. simpl.
  rewrite !lookup_alter_eq, Hx. simpl.
  split_and!; try reflexivity; try lia.
  - unfold totalRevenue. simpl. lia.
  - destruct (users db !! content_creator x); reflexivity.
Qed.

(** ** More on getCreditBalance *)

Lemma createPurchase_response_frame env db1 db2 b c :
  contents db1 = contents db2 ->
  purchases db1 = purchases db2 ->
  nextId db1 = nextId db2 ->
  ledgerOf db1 b = ledgerOf db2 b ->
  fst (createPurchase env b c db1) = fst (createPurchase env b c db2).
Proof.
  intros Ec Ep En El.
  assert (Ef : Purchase_findOne b c db1 = Purchase_findOne b c db2)
    by (unfold Purchase_findOne; rewrite Ep; reflexivity).
  destruct (contents db1 !! c) as [x|] eqn:Hx.
  2:{ rewrite !createPurchase_not_found; [reflexivity| |exact Hx].
      rewrite <- Ec. exact Hx. }
  assert (Hx2 : contents db2 !! c = Some x) by (rewrite <- Ec; exact Hx).
  destruct (Purchase_findOne b c db1) as [p|] eqn:Hp.
  { rewrite (createPurchase_already env db1 b c x), (createPurchase_already env db2 b c x);
      try assumption; try reflexivity.
    - exists p. rewrite <- Ef. reflexivity.
    - exists p. exact Hp. }
  symmetry in Ef.
  destruct (Z.lt_ge_cases (creditBalance (ledgerOf db1 b)) (content_price x))
    as [Hlt|Hle].
  { rewrite !createPurchase_insufficient with (c := x); try assumption;
      [reflexivity|]. rewrite <- El. exact Hlt. }
  destruct (Z.lt_ge_cases (content_price x) 0) as [Hneg|H0].
  { rewrite !createPurchase_negative_price with (c := x); try assumption;
      [reflexivity|]. rewrite <- El. exact Hle. }
  rewrite (createPurchase_ok env db1 b c x), (createPurchase_ok env db2 b c x);
    try assumption; try lia.
  - simpl. rewrite En, El. reflexivity.
  - rewrite <- El. lia.
Qed.

(** X5. getCreditBalance never fails and reports the balance a purchase
    would be checked against (the allowance when the user has no ledger
    record yet).  Asking again changes nothing, no balance is altered by
    asking, and the answer to a later createPurchase is the same whether or
    not balances were queried before. *)
Theorem getCreditBalance_is_neutral env db u b c :
  let r := getCreditBalance u db in
  fst r = Ok (CreditBalance (creditBalance (ledgerOf db u))) /\
  getCreditBalance u (snd r) = r /\
  (forall v, ledgerOf (snd r) v = ledgerOf db v) /\
  fst (createPurchase env b c (snd r)) = fst (createPurchase env b c db).
Proof.
  intros r. subst r. rewrite getCreditBalance_run. simpl. split_and!.
  - reflexivity.
  - rewrite getCreditBalance_run, ledgerOf_withLedger. f_equal.
    unfold withLedger at 1. rewrite ledgerOf_withLedger.
    unfold withLedger, set_credits. simpl. rewrite insert_insert_eq.
    reflexivity.
  - intros v. apply ledgerOf_withLedger.
  - apply createPurchase_response_frame; try reflexivity.
    apply ledgerOf_withLedger.
Qed.

(** ** More on settleCredit *)


Lemma filter_map_same {A} (p : A -> bool) (g : A -> A) l :
  (forall x, p (g x) = p x) ->
  List.filter p (map g l) = map g (List.filter p l).
Proof.
  intros H. induction l as [|x l IH]; simpl; [reflexivity|].
  rewrite H. destruct (p x); simpl; rewrite IH; reflexivity.
Qed.

Lemma insertByCreatedAt_map g e l :
  (forall x, earning_createdAt (g x) = earning_createdAt x) ->
  insertByCreatedAt (g e) (map g l) = map g (insertByCreatedAt e l).
Proof.
  intros H. induction l as [|x l IH]; simpl; [reflexivity|].
  rewrite !H. destruct (earning_createdAt e <=? earning_createdAt x); simpl.
  - reflexivity.
  - rewrite IH. reflexivity.
Qed.

Lemma sortByCreatedAt_map g l :
  (forall x, earning_createdAt (g x) = earning_createdAt x) ->
  sortByCreatedAt (map g l) = map g (sortByCreatedAt l).
Proof.
  intros H. induction l as [|x l IH]; simpl; [reflexivity|].
  rewrite IH. apply insertByCreatedAt_map, H.
Qed.

Lemma sumEarnings_map g l :
  (forall x, earning_amount (g x) = earning_amount x) ->
  sumEarnings (map g l) = sumEarnings l.
Proof.
  intros H. induction l as [|x l IH]; simpl; [reflexivity|].
  rewrite !sumEarnings_cons, IH, H. reflexivity.
Qed.

(** What settlement does to one earning: at most the reference changes. *)
Lemma settled_earnings db u h :
  exists g,
    earnings (settled u h db) = map g (earnings db) /\
    forall e,
      earning_id (g e) = earning_id e /\
      earning_creator (g e) = earning_creator e /\
      earning_status (g e) = earning_status e /\
      earning_amount (g e) = earning_amount e /\
      earning_createdAt (g e) = earning_createdAt e /\
      earning_purchase (g e) = earning_purchase e /\
      earning_content (g e) = earning_content e.
Proof.
  eexists. split; [reflexivity|]. intros e. simpl.
  destruct (existsb _ _); simpl; auto 10.
Qed.

(** X7. Settlement pays nobody: a successful settleCredit leaves every
    earning's status and amount alone (it only attaches the reference), so
    each creator's pending earnings, in order, and the pending and claimed
    totals are what they were, and no user aggregate moves. *)
Theorem settleCredit_pays_nobody db u ref resp db' :
  settleCredit u ref db = (Ok resp, db') ->
  users db' = users db /\
  map earning_status (earnings db') = map earning_status (earnings db) /\
  map earning_amount (earnings db') = map earning_amount (earnings db) /\
  forall v,
    map earning_id (findPendingEarnings v db')
      = map earning_id (findPendingEarnings v db) /\
    pendingTotal db' v = pendingTotal db v /\
    claimedTotal db' v = claimedTotal db v.
Proof.
  intros H.
  destruct (settleCredit_cases db u ref)
    as [[e He]|(h & cr & resp' & _ & _ & _ & _ & _ & Hok)].
  { rewrite He in H. discriminate. }
  rewrite Hok in H. injection H as _ <-.
  destruct (settled_earnings db u h) as (g & Eg & Hg).
  split; [reflexivity|]. split_and!.
  - rewrite Eg, map_map. apply map_ext. intros e. apply Hg.
  - rewrite Eg, map_map. apply map_ext. intros e. apply Hg.
  - intros v.
    assert (Ep : findPendingEarnings v (settled u h db)
                 = map g (findPendingEarnings v db)).
    { unfold findPendingEarnings. rewrite Eg, filter_map_same.
      - apply sortByCreatedAt_map. intros x. apply Hg.
      - intros x. unfold isPendingEarningOf.
        destruct (Hg x) as (_ & -> & -> & _). reflexivity. }
    split_and!.
    + rewrite Ep, map_map. apply map_ext. intros e. apply Hg.
    + unfold pendingTotal. rewrite Ep. apply sumEarnings_map.
      intros x. apply Hg.
    + unfold claimedTotal. rewrite Eg, filter_map_same.
      * apply sumEarnings_map. intros x. apply Hg.
      * intros x. unfold isClaimedEarningOf.
        destruct (Hg x) as (_ & -> & -> & _). reflexivity.
Qed.




(** ** References are recorded once *)

Lemma ledgerOf_distinct db u :
  referencesDistinct db -> List.NoDup (settledTransactions (ledgerOf db u)).
Proof.
  intros H. unfold ledgerOf.
  destruct (credits db !! u) as [cr|] eqn:E; simpl.
  - exact (H _ _ E).
  - constructor.
Qed.

Lemma NoDup_snoc (l : list string) h :
  List.NoDup l -> existsb (String.eqb h) l = false -> List.NoDup (l ++ [h]).
Proof.
  intros Hl Hh.
  apply List.NoDup_app; [exact Hl | repeat constructor; simpl; tauto |].
  intros a Ha [E|[]]. subst a.
  assert (existsb (String.eqb h) l = true); [|congruence].
  apply existsb_exists. exists h. split; [exact Ha | apply String.eqb_refl].
Qed.

Lemma handle_referencesDistinct env r db :
  contentsValid db -> referencesDistinct db ->
  referencesDistinct (snd (handle env r db)).
Proof.
  intros Hv Hd. destruct r as [b c|v|v ref|v a]; simpl.
  - destruct (createPurchase_cases env db b c Hv)
      as [[e ->]|[->|(x & resp & _ & _ & ->)]]; simpl.
    + exact Hd.
    + apply map_Forall_insert_2; [apply ledgerOf_distinct, Hd | exact Hd].
    + apply map_Forall_insert_2; [apply ledgerOf_distinct, Hd | exact Hd].
  - rewrite getCreditBalance_run. simpl.
    apply map_Forall_insert_2; [apply ledgerOf_distinct, Hd | exact Hd].
  - destruct (settleCredit_cases db v ref)
      as [[e ->]|(s & cr & resp & _ & _ & Hcr & _ & Hin & ->)]; simpl.
    + exact Hd.
    + apply map_Forall_insert_2; [|exact Hd]. simpl.
      unfold ledgerOf. rewrite Hcr. simpl.
      apply NoDup_snoc; [exact (Hd _ _ Hcr) | exact Hin].
  - destruct (claim_cases env db v a)
      as [[e ->]|(cr & tr & resp & _ & _ & _ & _ & _ & ->)]; simpl; exact Hd.
Qed.

(** X9. No ledger ever records a reference twice: from a database where
    every settledTransactions list is duplicate-free, it stays so after any
    sequence of requests, since a settlement appends its reference only
    after finding it absent. *)
Theorem references_are_recorded_once rs db :
  contentsValid db ->
  referencesDistinct db ->
  forall u cr,
    credits (run rs db) !! u = Some cr ->
    List.NoDup (settledTransactions cr).
Proof.
  revert db. induction rs as [|[env r] rs IH]; intros db Hv Hd; simpl.
  - exact Hd.
  - apply IH.
    + apply handle_contentsValid, Hv.
    + apply handle_referencesDistinct; assumption.
Qed.

(** ** Credit used and unsettled purchases *)









(** ** The stored ledger stays consistent *)

Lemma Forall2_map_same {A B} (P : A -> B -> Prop) (f : A -> A) (g : B -> B)
    l k :
  (forall x y, P x y -> P (f x) (g y)) ->
  Forall2 P l k -> Forall2 P (map f l) (map g k).
Proof.
  intros H. induction 1 as [|x y l k Hxy _ IH]; simpl; constructor; auto.
Qed.

Lemma storeConsistent_relabel db db' f g :
  contents db' = contents db ->
  nextId db' = nextId db ->
  purchases db' = map f (purchases db) ->
  earnings db' = map g (earnings db) ->
  (forall p, purchase_id (f p) = purchase_id p /\
             purchase_amount (f p) = purchase_amount p /\
             purchase_content (f p) = purchase_content p) ->
  (forall e, earning_id (g e) = earning_id e /\
             earning_amount (g e) = earning_amount e /\
             earning_purchase (g e) = earning_purchase e /\
             earning_content (g e) = earning_content e) ->
  storeConsistent db -> storeConsistent db'.
Proof.
  intros Ec En Ep Ee Hf Hg [H1 H2 H3 H4 H5 H6 H7].
  assert (Eid : map earning_id (map g (earnings db))
                = map earning_id (earnings db))
    by (rewrite map_map; apply map_ext; intros e; apply Hg).
  assert (Epid : map purchase_id (map f (purchases db))
                 = map purchase_id (purchases db))
    by (rewrite map_map; apply map_ext; intros p; apply Hf).
  constructor.
  - unfold contentsValid. rewrite Ec. exact H1.
  - unfold earningIdsUnique. rewrite Ee, Eid. exact H2.
  - rewrite Ep, Epid. exact H3.
  - rewrite Ee, En. apply List.Forall_map.
    eapply List.Forall_impl; [|exact H4]. simpl. intros e He.
    destruct (Hg e) as (-> & _). exact He.
  - rewrite Ep, En. apply List.Forall_map.
    eapply List.Forall_impl; [|exact H5]. simpl. intros p Hp.
    destruct (Hf p) as (-> & _). exact Hp.
  - unfold earningsValid. rewrite Ee. apply List.Forall_map.
    eapply List.Forall_impl; [|exact H6]. simpl. intros e He.
    destruct (Hg e) as (_ & -> & _). exact He.
  - rewrite Ep, Ee. apply Forall2_map_same; [|exact H7].
    intros p e (E1 & E2 & E3). unfold earningOfPurchase.
    destruct (Hf p) as (-> & -> & ->). destruct (Hg e) as (_ & -> & -> & ->).
    auto.
Qed.

Lemma fresh_not_In {A} (key : A -> N) (l : list A) n :
  Forall (fun x => (key x < n)%N) l -> ~ In n (map key l).
Proof.
  intros H Hin. apply in_map_iff in Hin as (x & E & Hx).
  rewrite List.Forall_forall in H. specialize (H x Hx). lia.
Qed.

Lemma NoDup_map_snoc {A} (key : A -> N) (l : list A) x :
  List.NoDup (map key l) -> ~ In (key x) (map key l) ->
  List.NoDup (map key (l ++ [x])).
Proof.
  intros Hl Hx. rewrite map_app. simpl.
  apply List.NoDup_app; [exact Hl | repeat constructor; simpl; tauto |].
  intros a Ha [E|[]]. subst a. contradiction.
Qed.

Lemma storeConsistent_purchased env db b c x :
  storeConsistent db -> 0 <= content_price x ->
  storeConsistent (purchased env b c x db).
Proof.
  intros [H1 H2 H3 H4 H5 H6 H7] H0. constructor.
  - apply contentsValid_purchased, H1.
  - unfold earningIdsUnique, purchased. simpl.
    apply NoDup_map_snoc; [exact H2|]. simpl.
    apply fresh_not_In.
    eapply List.Forall_impl; [|exact H4]. simpl. intros e He. lia.
  - unfold purchased. simpl.
    apply NoDup_map_snoc; [exact H3|]. simpl.
    apply fresh_not_In. exact H5.
  - unfold purchased. simpl. apply Forall_app. split.
    + eapply List.Forall_impl; [|exact H4]. simpl. intros e He. lia.
    + repeat constructor. simpl. lia.
  - unfold purchased. simpl. apply Forall_app. split.
    + eapply List.Forall_impl; [|exact H5]. simpl. intros p Hp. lia.
    + repeat constructor. simpl. lia.
  - unfold earningsValid, purchased. simpl. apply Forall_app. split.
    + exact H6.
    + repeat constructor. simpl. exact H0.
  - unfold purchased. simpl. apply Forall2_app; [exact H7|].
    repeat constructor.
Qed.

Lemma storeConsistent_withLedger db u :
  storeConsistent db -> storeConsistent (withLedger u db).
Proof.
  apply (storeConsistent_relabel db (withLedger u db) (fun p => p) (fun e => e));
    try reflexivity; simpl; try (symmetry; apply map_id); auto.
Qed.

Lemma storeConsistent_settled db u h :
  storeConsistent db -> storeConsistent (settled u h db).
Proof.
  eapply storeConsistent_relabel; try reflexivity.
  - intros p. simpl. destruct (isPendingPurchaseOf u p); simpl; auto.
  - intros e. simpl. destruct (existsb _ _); simpl; auto.
Qed.

Lemma storeConsistent_afterClaim env db u amount h :
  storeConsistent db -> storeConsistent (afterClaim env u amount h db).
Proof.
  intros H.
  apply (storeConsistent_relabel db (afterClaim env u amount h db)
           (fun p => p)
           (fun e => if isOneOf (consumed amount (findPendingEarnings u db)) e
                     then markClaimed env h e else e));
    try reflexivity; try exact H.
  - simpl. symmetry. apply map_id.
  - apply afterClaim_earnings, H.
  - auto.
  - intros e. destruct (isOneOf _ e); simpl; auto.
Qed.

Lemma handle_storeConsistent env r db :
  storeConsistent db -> storeConsistent (snd (handle env r db)).
Proof.
  intros H. pose proof (consistent_contents _ H) as Hv.
  destruct r as [b c|v|v ref|v a]; simpl.
  - destruct (createPurchase_cases env db b c Hv)
      as [[e ->]|[->|(x & resp & _ & [H0 _] & ->)]]; simpl.
    + exact H.
    + apply storeConsistent_withLedger, H.
    + apply storeConsistent_purchased; assumption.
  - rewrite getCreditBalance_run. apply storeConsistent_withLedger, H.
  - destruct (settleCredit_cases db v ref)
      as [[e ->]|(s & cr & resp & _ & _ & _ & _ & _ & ->)]; simpl.
    + exact H.
    + apply storeConsistent_settled, H.
  - destruct (claim_cases env db v a)
      as [[e ->]|(cr & tr & resp & _ & _ & _ & _ & _ & ->)]; simpl.
    + exact H.
    + apply storeConsistent_afterClaim, H.
Qed.

Lemma run_storeConsistent rs : forall db,
  storeConsistent db -> storeConsistent (run rs db).
Proof.
  induction rs as [|[env r] rs IH]; intros db H; simpl; [exact H|].
  apply IH, handle_storeConsistent, H.
Qed.

(** X11. In every state reached from a consistent database, whatever the
    requests, the earnings and the purchases have pairwise distinct ids,
    all below the next id to be handed out, and every earning amount is
    non-negative. *)
Theorem reachable_ids_are_distinct rs db :
  storeConsistent db ->
  let db1 := run rs db in
  List.NoDup (map earning_id (earnings db1)) /\
  List.NoDup (map purchase_id (purchases db1)) /\
  (forall e, In e (earnings db1) ->
             (earning_id e < nextId db1)%N /\ 0 <= earning_amount e) /\
  (forall p, In p (purchases db1) -> (purchase_id p < nextId db1)%N).
Proof.
  intros H db1.
  destruct (run_storeConsistent rs db H) as [H1 H2 H3 H4 H5 H6 H7].
  fold db1 in H1, H2, H3, H4, H5, H6, H7.
  unfold earningsValid in H6. rewrite List.Forall_forall in H4, H5, H6.
  split_and!; auto.
Qed.

Lemma NoDup_map_inj {A} (key : A -> ObjectId) (l : list A) x y :
  List.NoDup (map key l) -> In x l -> In y l -> key x = key y -> x = y.
Proof.
  induction l as [|a l IH]; simpl; [tauto|].
  intros H. apply NoDup_cons_iff in H as [Ha Hl].
  intros [->|Hx] [->|Hy] E; auto.
  - exfalso. apply Ha. rewrite E. apply in_map. exact Hy.
  - exfalso. apply Ha. rewrite <- E. apply in_map. exact Hx.
Qed.

Lemma pairs_same_keys ps es :
  Forall2 earningOfPurchase ps es ->
  map earning_purchase es = map purchase_id ps.
Proof.
  induction 1 as [|p e ps es (E & _) _ IH]; simpl; [reflexivity|].
  rewrite E, IH. reflexivity.
Qed.

Lemma pairs_find ps es p :
  Forall2 earningOfPurchase ps es -> In p ps ->
  exists e, In e es /\ earningOfPurchase p e.
Proof.
  induction 1 as [|q e ps es Hq _ IH]; simpl; [tauto|].
  intros [<-|Hp].
  - exists e. auto.
  - destruct (IH Hp) as (e' & He' & H'). exists e'. auto.
Qed.

(** X12. In every state reached from a consistent database, every purchase
    has exactly one earning: one earning refers to it, and that earning
    carries the purchase's amount and content. *)
Theorem every_purchase_has_one_earning rs db :
  storeConsistent db ->
  let db1 := run rs db in
  length (earnings db1) = length (purchases db1) /\
  forall p, In p (purchases db1) ->
    exists e,
      In e (earnings db1) /\
      earning_purchase e = purchase_id p /\
      earning_amount e = purchase_amount p /\
      earning_content e = purchase_content p /\
      forall e', In e' (earnings db1) ->
                 earning_purchase e' = purchase_id p -> e' = e.
Proof.
  intros H db1.
  pose proof (run_storeConsistent rs db H) as Hc.
  change (storeConsistent db1) in Hc. clearbody db1.
  destruct Hc as [_ _ H3 _ _ _ H7]. split.
  - symmetry. eapply Forall2_length. exact H7.
  - intros p Hp. destruct (pairs_find _ _ p H7 Hp) as (e & He & E1 & E2 & E3).
    exists e. split_and!; auto.
    intros e' He' E'.
    apply (NoDup_map_inj earning_purchase (earnings db1)).
    + rewrite (pairs_same_keys (purchases db1) (earnings db1) H7). exact H3.
    + exact He'.
    + exact He.
    + congruence.
Qed.

(** ** Claims move money from pending to claimed *)

Lemma creator_total_split u l :
  sumEarnings (List.filter (isEarningOf u) l) =
  sumEarnings (List.filter (isPendingEarningOf u) l) +
  sumEarnings (List.filter (isClaimedEarningOf u) l).
Proof.
  induction l as [|x l IH]; simpl; [reflexivity|].
  unfold isEarningOf, isPendingEarningOf, isClaimedEarningOf in *.
  destruct (earning_creator x =? u)%N; simpl; [|exact IH].
  destruct (earning_status x); simpl; rewrite !sumEarnings_cons, IH; lia.
Qed.

Lemma pendingTotal_unsorted db u :
  pendingTotal db u =
  sumEarnings (List.filter (isPendingEarningOf u) (earnings db)).
Proof.
  unfold pendingTotal, findPendingEarnings.
  apply sumEarnings_perm, sortByCreatedAt_perm.
Qed.

Lemma claimAll_creator_total env h used es u :
  sumEarnings (List.filter (isEarningOf u) (claimAll env h used es)) =
  sumEarnings (List.filter (isEarningOf u) es).
Proof.
  unfold claimAll. rewrite filter_map_same.
  - apply sumEarnings_map. intros x. destruct (isOneOf used x); reflexivity.
  - intros x. destruct (isOneOf used x); reflexivity.
Qed.

Lemma afterClaim_pendingTotal env db u amount h :
  earningIdsUnique db ->
  pendingTotal (afterClaim env u amount h db) u =
  pendingTotal db u - sumEarnings (consumed amount (findPendingEarnings u db)).
Proof.
  intros Hnd.
  destruct (consumed_prefix (findPendingEarnings u db) amount) as [rest Hs].
  unfold pendingTotal at 1. rewrite (afterClaim_pending _ _ _ _ _ rest Hnd Hs).
  unfold pendingTotal. rewrite Hs at 1. rewrite sumEarnings_app. lia.
Qed.

Lemma afterClaim_claimedTotal env db u amount h :
  earningIdsUnique db ->
  claimedTotal (afterClaim env u amount h db) u =
  claimedTotal db u + sumEarnings (consumed amount (findPendingEarnings u db)).
Proof.
  intros Hnd.
  pose proof (afterClaim_pendingTotal env db u amount h Hnd) as Ep.
  pose proof (creator_total_split u (earnings (afterClaim env u amount h db)))
    as E1.
  pose proof (creator_total_split u (earnings db)) as E2.
  rewrite afterClaim_earnings in E1 at 1 by exact Hnd.
  rewrite claimAll_creator_total in E1.
  rewrite <- !pendingTotal_unsorted in E1, E2.
  unfold claimedTotal. lia.
Qed.

Lemma consumed_are_pending db u amount x :
  earningIdsUnique db ->
  In x (earnings db) ->
  isOneOf (consumed amount (findPendingEarnings u db)) x = true ->
  isPendingEarningOf u x = true.
Proof.
  intros Hnd Hx Hin. apply isOneOf_In in Hin.
  apply in_map_iff in Hin as (e & E & He).
  destruct (consumed_prefix (findPendingEarnings u db) amount) as [rest Hs].
  assert (He' : In e (findPendingEarnings u db))
    by (rewrite Hs; apply in_or_app; left; exact He).
  apply findPendingEarnings_In in He' as [He' Hp].
  rewrite (ids_unique_inj (earnings db) x e Hnd Hx He'); congruence.
Qed.

Lemma claimAll_keeps p env h u used es :
  (forall x, In x es -> isOneOf used x = true ->
             isPendingEarningOf u x = true) ->
  (forall x, isPendingEarningOf u x = true ->
             p x = false /\ p (markClaimed env h x) = false) ->
  List.filter p (claimAll env h used es) = List.filter p es.
Proof.
  intros Hused Hp. unfold claimAll.
  induction es as [|x es IH]; simpl; [reflexivity|].
  rewrite IH by (intros y Hy; apply Hused; right; exact Hy).
  destruct (isOneOf used x) eqn:E; [|reflexivity].
  destruct (Hp x (Hused x (or_introl eq_refl) E)) as [-> ->]. reflexivity.
Qed.

Lemma afterClaim_other env db u amount h v :
  earningIdsUnique db -> v <> u ->
  List.filter (isPendingEarningOf v) (earnings (afterClaim env u amount h db))
    = List.filter (isPendingEarningOf v) (earnings db) /\
  List.filter (isClaimedEarningOf v) (earnings (afterClaim env u amount h db))
    = List.filter (isClaimedEarningOf v) (earnings db).
Proof.
  intros Hnd Hne. rewrite afterClaim_earnings by exact Hnd.
  split; apply claimAll_keeps with (u := u);
    try (intros x Hx Hin; eapply consumed_are_pending; eassumption).
  - intros x Hx. unfold isPendingEarningOf in *. simpl.
    apply andb_true_iff in Hx as [Hx _]. apply N.eqb_eq in Hx.
    destruct (N.eqb_spec (earning_creator x) v); [congruence|]. auto.
  - intros x Hx. unfold isPendingEarningOf, isClaimedEarningOf in *. simpl.
    apply andb_true_iff in Hx as [Hx _]. apply N.eqb_eq in Hx.
    destruct (N.eqb_spec (earning_creator x) v); [congruence|]. auto.
Qed.

Lemma claimed_kept_by_claimAll env h db u amount e :
  earningIdsUnique db ->
  In e (earnings db) -> earning_status e = claimed ->
  In e (earnings (afterClaim env u amount h db)).
Proof.
  intros Hnd He Hs. rewrite afterClaim_earnings by exact Hnd.
  unfold claimAll. apply in_map_iff. exists e. split; [|exact He].
  destruct (isOneOf _ e) eqn:E; [|reflexivity].
  apply (consumed_are_pending db u amount e Hnd He) in E.
  unfold isPendingEarningOf in E. rewrite Hs in E. simpl in E.
  rewrite andb_false_r in E. discriminate.
Qed.

(** X13. A successful claimCreatorEarnings moves money from pending to
    claimed and nowhere else: what the creator's pending total loses the
    claimed total gains, and it is at least the amount paid; the creator's
    totalEarnings grows by exactly the amount paid; the earnings of every
    other creator, all purchases, ledgers and contents are untouched. *)
Theorem claim_moves_pending_to_claimed env db u A resp db' :
  earningIdsUnique db ->
  claimCreatorEarnings env u A db = (Ok resp, db') ->
  claimedTotal db' u - claimedTotal db u
    = pendingTotal db u - pendingTotal db' u /\
  pendingTotal db u - pendingTotal db' u >= A /\
  totalEarningsOf db' u = totalEarningsOf db u + A /\
  credits db' = credits db /\
  purchases db' = purchases db /\
  contents db' = contents db /\
  forall v, v <> u ->
    pendingTotal db' v = pendingTotal db v /\
    claimedTotal db' v = claimedTotal db v /\
    totalEarningsOf db' v = totalEarningsOf db v.
Proof.
  intros Hnd H.
  destruct (claim_cases env db u A)
    as [[e He]|(cr & tr & resp' & [Hpos Hle] & Hu & _ & _ & _ & Hok)].
  { rewrite He in H. discriminate. }
  rewrite Hok in H. injection H as _ <-.
  rewrite afterClaim_pendingTotal, afterClaim_claimedTotal by exact Hnd.
  pose proof (consumed_covers (findPendingEarnings u db) A Hle) as Hcov.
  split_and!; try reflexivity; try lia.
  - unfold totalEarningsOf, afterClaim. simpl.
    rewrite lookup_alter_eq, Hu. reflexivity.
  - intros v Hne.
    destruct (afterClaim_other env db u A (transfer_transactionHash tr) v
                Hnd Hne) as [E1 E2].
    split_and!.
    + rewrite !pendingTotal_unsorted, E1. reflexivity.
    + unfold claimedTotal. rewrite E2. reflexivity.
    + unfold totalEarningsOf, afterClaim. simpl.
      rewrite lookup_alter_ne by congruence. reflexivity.
Qed.

Lemma settled_claimedTotal db u h v :
  claimedTotal (settled u h db) v = claimedTotal db v.
Proof.
  destruct (settled_earnings db u h) as (g & Eg & Hg).
  unfold claimedTotal. rewrite Eg, filter_map_same.
  - apply sumEarnings_map. intros x. apply Hg.
  - intros x. unfold isClaimedEarningOf.
    destruct (Hg x) as (_ & -> & -> & _). reflexivity.
Qed.

Lemma purchased_claimedTotal env db b c x v :
  claimedTotal (purchased env b c x db) v = claimedTotal db v.
Proof.
  unfold claimedTotal, purchased. simpl. rewrite List.filter_app. simpl.
  unfold isClaimedEarningOf at 2. simpl. rewrite andb_false_r.
  rewrite app_nil_r. reflexivity.
Qed.

Lemma handle_claimedTotal env r db v :
  storeConsistent db ->
  claimedTotal db v <= claimedTotal (snd (handle env r db)) v.
Proof.
  intros H. pose proof (consistent_contents _ H) as Hv.
  pose proof (consistent_earningIds _ H) as Hnd.
  destruct r as [b c|u|u ref|u a]; simpl.
  - destruct (createPurchase_cases env db b c Hv)
      as [[e ->]|[->|(x & resp & _ & _ & ->)]]; simpl; try reflexivity.
    rewrite purchased_claimedTotal. reflexivity.
  - rewrite getCreditBalance_run. reflexivity.
  - destruct (settleCredit_cases db u ref)
      as [[e ->]|(s & cr & resp & _ & _ & _ & _ & _ & ->)]; simpl.
    + reflexivity.
    + rewrite settled_claimedTotal. reflexivity.
  - destruct (claim_cases env db u a)
      as [[e ->]|(cr & tr & resp & [Hpos Hle] & _ & _ & _ & _ & ->)]; simpl.
    + reflexivity.
    + destruct (decide (v = u)) as [->|Hne].
      * rewrite afterClaim_claimedTotal by exact Hnd.
        pose proof (consumed_covers (findPendingEarnings u db) a Hle). lia.
      * destruct (afterClaim_other env db u a (transfer_transactionHash tr) v
                    Hnd Hne) as [_ E].
        unfold claimedTotal. rewrite E. reflexivity.
Qed.

(** The same earning, still claimed at the same time. *)
Lemma handle_keeps_claimed env r db e :
  storeConsistent db ->
  In e (earnings db) -> earning_status e = claimed ->
  exists e',
    In e' (earnings (snd (handle env r db))) /\
    earning_id e' = earning_id e /\
    earning_creator e' = earning_creator e /\
    earning_amount e' = earning_amount e /\
    earning_claimedAt e' = earning_claimedAt e /\
    earning_status e' = claimed.
Proof.
  intros H He Hs. pose proof (consistent_contents _ H) as Hv.
  pose proof (consistent_earningIds _ H) as Hnd.
  destruct r as [b c|u|u ref|u a]; simpl.
  - destruct (createPurchase_cases env db b c Hv)
      as [[e0 ->]|[->|(x & resp & _ & _ & ->)]]; simpl;
      exists e; split_and!; auto.
    apply in_or_app. left. exact He.
  - rewrite getCreditBalance_run. exists e. auto 10.
  - destruct (settleCredit_cases db u ref)
      as [[e0 ->]|(s & cr & resp & _ & _ & _ & _ & _ & ->)]; simpl.
    + exists e. auto 10.
    + eexists. split; [apply in_map; exact He|]. simpl.
      destruct (existsb _ _); simpl; auto.
  - destruct (claim_cases env db u a)
      as [[e0 ->]|(cr & tr & resp & _ & _ & _ & _ & _ & ->)]; simpl.
    + exists e. auto 10.
    + exists e. split_and!; auto.
      apply claimed_kept_by_claimAll; assumption.
Qed.

(** X14. Claimed is final: in every state reached from a consistent
    database an earning that was claimed is still there, still claimed, with
    its creator, amount and claimedAt, so no later claim consumes it a
    second time; and no creator's claimed total ever decreases. *)
Theorem claimed_is_final rs : forall db,
  storeConsistent db ->
  (forall v, claimedTotal db v <= claimedTotal (run rs db) v) /\
  (forall e,
     In e (earnings db) -> earning_status e = claimed ->
     exists e',
       In e' (earnings (run rs db)) /\
       earning_id e' = earning_id e /\
       earning_creator e' = earning_creator e /\
       earning_amount e' = earning_amount e /\
       earning_claimedAt e' = earning_claimedAt e /\
       earning_status e' = claimed).
Proof.
  induction rs as [|[env r] rs IH]; intros db H; simpl.
  - split; [reflexivity|]. intros e He Hs. exists e. auto 10.
  - destruct (IH _ (handle_storeConsistent env r db H)) as [IH1 IH2]. split.
    + intros v. pose proof (handle_claimedTotal env r db v H).
      specialize (IH1 v). lia.
    + intros e He Hs.
      destruct (handle_keeps_claimed env r db e H He Hs)
        as (e1 & He1 & E1 & E2 & E3 & E4 & Hs1).
      destruct (IH2 e1 He1 Hs1) as (e2 & He2 & F1 & F2 & F3 & F4 & Hs2).
      exists e2. split_and!; auto; congruence.
Qed.

Lemma transferPYUSD_returns w addr amount tr :
  transferPYUSD w addr amount = Returned tr <->
  walletInitialized w = true /\ isValidAddress w addr = true /\
  tr = mkTransferResult ("0x" +:+ randomHex w) true.
Proof.
  unfold transferPYUSD.
  destruct (walletInitialized w), (isValidAddress w addr); simpl;
    split; try (intros [= <-]; auto); try (intros (? & ? & ?); congruence).
Qed.

(** X15. claimCreatorEarnings succeeds exactly when the amount is positive
    and at most the creator's pending total, the creator's user record has
    a wallet address, and the platform wallet is initialised and accepts
    that address.  Nothing else is looked at: neither whether the purchases
    behind the earnings were settled nor any balance of the platform. *)
Theorem claim_succeeds_iff env db u A :
  (exists resp db', claimCreatorEarnings env u A db = (Ok resp, db')) <->
  0 < A <= pendingTotal db u /\
  exists creator,
    users db !! u = Some creator /\
    user_walletAddress creator <> "" /\
    walletInitialized (wallet env) = true /\
    isValidAddress (wallet env) (user_walletAddress creator) = true.
Proof.
  split.
  - intros (resp & db' & H).
    destruct (claim_cases env db u A)
      as [[e He]|(cr & tr & resp' & HA & Hu & Hw & _ & Ht & _)].
    { rewrite He in H. discriminate. }
    apply transferPYUSD_returns in Ht as (Hi & Hva & _).
    split; [exact HA|]. exists cr. auto.
  - intros ([Hpos Hle] & cr & Hu & Hw & Hi & Hva).
    assert (Hne : findPendingEarnings u db <> []).
    { intros E. unfold pendingTotal in Hle. rewrite E in Hle.
      unfold sumEarnings in Hle. simpl in Hle. lia. }
    eexists _, _. eapply claim_ok; try eassumption.
    apply transferPYUSD_returns. eauto.
Qed.

(** X16. The remainingPending a successful claim reports is the old pending
    total minus the amount paid; what is really left pending is never more
    than that, is equal to it exactly when the amount is the sum of a prefix
    of the pending earnings, and is 0 when the whole pending total is
    claimed. *)
Theorem reported_remaining_bounds_pending env db u A a n remaining h db' :
  earningIdsUnique db ->
  earningsValid db ->
  claimCreatorEarnings env u A db
    = (Ok (EarningsClaimed a n remaining h), db') ->
  a = A /\
  remaining = pendingTotal db u - A /\
  n = length (consumed A (findPendingEarnings u db)) /\
  0 <= pendingTotal db' u <= remaining /\
  (pendingTotal db' u = remaining <->
   exists l1 l2, findPendingEarnings u db = l1 ++ l2 /\ sumEarnings l1 = A) /\
  (A = pendingTotal db u -> pendingTotal db' u = 0).
Proof.
  intros Hnd Hval H.
  destruct (claim_cases env db u A)
    as [[e He]|(cr & tr & resp' & [Hpos Hle] & Hu & Hw & Hne & Ht & Hok)].
  { rewrite He in H. discriminate. }
  rewrite (claim_ok _ _ _ _ _ _ Hpos Hu Hw Hne Hle Ht) in H.
  injection H as <- <- <- <- <-.
  pose proof (consumed_covers (findPendingEarnings u db) A Hle) as Hcov.
  pose proof (afterClaim_pendingTotal env db u A (transfer_transactionHash tr)
                Hnd) as Ep.
  destruct (consumed_prefix (findPendingEarnings u db) A) as [rest Hs].
  pose proof (findPendingEarnings_nonneg db u Hval) as Hnn.
  assert (Hrest : 0 <= sumEarnings rest).
  { apply sumEarnings_nonneg. rewrite Hs in Hnn. apply Forall_app in Hnn.
    tauto. }
  assert (Etot : pendingTotal db u
                 = sumEarnings (consumed A (findPendingEarnings u db))
                   + sumEarnings rest).
  { unfold pendingTotal. rewrite Hs at 1. apply sumEarnings_app. }
  split_and!; try reflexivity; try lia.
  split.
  - intros E. exists (consumed A (findPendingEarnings u db)), rest.
    split; [exact Hs | lia].
  - intros (l1 & l2 & E & Hsum).
    assert (sumEarnings (consumed A (findPendingEarnings u db)) = A); [|lia].
    rewrite E. apply consumed_aligned; try assumption.
    rewrite E in Hnn. apply Forall_app in Hnn. tauto.
Qed.

(** ** Pagination *)

(** X17. getPaginationOptions never yields page 0 or limit 0: a parameter
    that is absent, unparsable or 0 falls back to page 1 and limit 10.  Any
    other integer goes through as it is, negative ones included, and skip is
    (page - 1) * limit: for a limit of at least 1 it is non-negative exactly
    when the page is at least 1. *)
Theorem getPaginationOptions_never_zero parsedPage parsedLimit :
  let o := getPaginationOptions parsedPage parsedLimit in
  opt_page o <> 0 /\ opt_limit o <> 0 /\
  opt_skip o = (opt_page o - 1) * opt_limit o /\
  (parsedPage = NotANumber \/ parsedPage = Parsed 0 -> opt_page o = 1) /\
  (parsedLimit = NotANumber \/ parsedLimit = Parsed 0 -> opt_limit o = 10) /\
  (forall z, z <> 0 -> parsedPage = Parsed z -> opt_page o = z) /\
  (forall z, z <> 0 -> parsedLimit = Parsed z -> opt_limit o = z) /\
  (1 <= opt_limit o -> (0 <= opt_skip o <-> 1 <= opt_page o)).
Proof.
  simpl. split_and!.
  - destruct parsedPage as [|z]; simpl; [lia|].
    destruct (Z.eqb_spec z 0); lia.
  - destruct parsedLimit as [|z]; simpl; [lia|].
    destruct (Z.eqb_spec z 0); lia.
  - reflexivity.
  - intros [->| ->]; reflexivity.
  - intros [->| ->]; reflexivity.
  - intros z Hz ->. simpl. destruct (Z.eqb_spec z 0); [contradiction|reflexivity].
  - intros z Hz ->. simpl. destruct (Z.eqb_spec z 0); [contradiction|reflexivity].
  - intros Hl. nia.
Qed.

Lemma ceilDiv_spec total limit :
  1 <= limit ->
  total <= ceilDiv total limit * limit /\
  (ceilDiv total limit - 1) * limit < total.
Proof.
  intros Hl. unfold ceilDiv.
  pose proof (Z.mul_div_le (- total) limit ltac:(lia)).
  pose proof (Z.mul_succ_div_gt (- total) limit ltac:(lia)).
  nia.
Qed.

(** X18. The page count sendPaginated reports, for a limit of at least 1
    and a non-negative total, is the least number of pages that hold
    everything: pages * limit covers the total, one page fewer does not,
    and no smaller count does; it is 0 exactly when the total is 0. *)
Theorem sendPaginated_pages_cover {A} (data : list A) page limit total :
  1 <= limit ->
  0 <= total ->
  let pages :=
    pagination_pages (paginated_pagination
                        (sendPaginated data page limit total)) in
  0 <= pages /\
  total <= pages * limit /\
  (pages - 1) * limit < total /\
  (forall n, total <= n * limit -> pages <= n) /\
  (pages = 0 <-> total = 0).
Proof.
  intros Hl Ht. simpl.
  destruct (ceilDiv_spec total limit Hl) as [H1 H2].
  split_and!; try assumption; try nia.
Qed.

Lemma firstn_skipn_add {A} (l : list A) a b :
  (firstn a l ++ firstn b (skipn a l) = firstn (a + b) l)%nat.
Proof.
  revert l. induction a as [|a IH]; intros l; simpl; [reflexivity|].
  destruct l as [|x l]; simpl.
  - rewrite firstn_nil. reflexivity.
  - rewrite IH. reflexivity.
Qed.

Lemma pages_tile {A} (l : list A) (n m : nat) :
  concat (map (fun k => firstn n (skipn ((k - 1) * n) l)) (seq 1 m))
  = firstn (m * n) l.
Proof.
  induction m as [|m IH]; [reflexivity|].
  rewrite seq_S, map_app, concat_app, IH. simpl map. simpl concat.
  rewrite app_nil_r.
  replace ((m - 0) * n)%nat with (m * n)%nat by lia.
  rewrite firstn_skipn_add. f_equal. lia.
Qed.

Lemma insertNewestFirst_perm {A} (key : A -> Z) x l :
  Permutation (insertNewestFirst key x l) (x :: l).
Proof.
  induction l as [|y l IH]; simpl; [reflexivity|].
  destruct (key y <=? key x); [reflexivity|].
  rewrite IH. apply perm_swap.
Qed.

Lemma sortNewestFirst_perm {A} (key : A -> Z) l :
  Permutation (sortNewestFirst key l) l.
Proof.
  induction l as [|x l IH]; simpl; [reflexivity|].
  rewrite insertNewestFirst_perm. apply perm_skip, IH.
Qed.

Lemma insertNewestFirst_sorted {A} (key : A -> Z) x l :
  StronglySorted (fun a b => key b <= key a) l ->
  StronglySorted (fun a b => key b <= key a) (insertNewestFirst key x l).
Proof.
  induction 1 as [|y l Hs IH Hy]; simpl.
  - constructor; constructor.
  - destruct (Z.leb_spec (key y) (key x)) as [Hle|Hgt].
    + constructor; [constructor; assumption|].
      constructor; [exact Hle|].
      eapply List.Forall_impl; [|exact Hy]. simpl. intros a Ha. lia.
    + constructor; [exact IH|].
      eapply Permutation_Forall.
      * symmetry. apply insertNewestFirst_perm.
      * constructor; [lia | exact Hy].
Qed.

Lemma sortNewestFirst_sorted {A} (key : A -> Z) l :
  StronglySorted (fun a b => key b <= key a) (sortNewestFirst key l).
Proof.
  induction l as [|x l IH]; simpl.
  - constructor.
  - apply insertNewestFirst_sorted, IH.
Qed.

Lemma orDefault_nonzero z d : z <> 0 -> orDefault (Parsed z) d = z.
Proof.
  intros H. simpl. destruct (Z.eqb_spec z 0); [contradiction | reflexivity].
Qed.

Lemma getPaginationOptions_valid k limit :
  1 <= k -> 1 <= limit ->
  getPaginationOptions (Parsed k) (Parsed limit)
  = mkPaginationOptions k limit ((k - 1) * limit).
Proof.
  intros Hk Hl. unfold getPaginationOptions.
  rewrite !orDefault_nonzero by lia. reflexivity.
Qed.

Lemma getPaginationOptions_limit p limit :
  1 <= limit -> opt_limit (getPaginationOptions p (Parsed limit)) = limit.
Proof.
  intros Hl. unfold getPaginationOptions. cbn [opt_limit].
  apply orDefault_nonzero. lia.
Qed.

(** The pages of a list cut by [getPaginationOptions] and [skipLimit]. *)
Lemma skipLimit_tiles {A} (l : list A) limit :
  1 <= limit ->
  let pageOf k :=
    let o := getPaginationOptions (Parsed k) (Parsed limit) in
    skipLimit (opt_skip o) (opt_limit o) l in
  let pages := ceilDiv (Z.of_nat (length l)) limit in
  (forall k, Z.to_nat limit >= length (pageOf k))%nat /\
  concat (map (fun k => pageOf (Z.of_nat k)) (seq 1 (Z.to_nat pages))) = l /\
  (forall k, pages < k -> pageOf k = []) /\
  (forall k, 1 <= k <= pages -> pageOf k <> []).
Proof.
  intros Hl pageOf pages.
  assert (Epage : forall k, 1 <= k ->
            pageOf k = firstn (Z.to_nat limit)
                         (skipn ((Z.to_nat k - 1) * Z.to_nat limit) l)).
  { intros k Hk. unfold pageOf. cbv zeta.
    rewrite getPaginationOptions_valid by lia. unfold skipLimit.
    cbn [opt_skip opt_limit]. f_equal. f_equal.
    rewrite Z2Nat.inj_mul, Z2Nat.inj_sub by lia. reflexivity. }
  destruct (ceilDiv_spec (Z.of_nat (length l)) limit Hl) as [H1 H2].
  fold pages in H1, H2.
  assert (Hp : 0 <= pages) by nia.
  split_and!.
  - intros k. unfold pageOf. cbv zeta.
    rewrite getPaginationOptions_limit by lia. unfold skipLimit.
    rewrite length_firstn. lia.
  - rewrite (map_ext_in _ (fun k => firstn (Z.to_nat limit)
                             (skipn ((k - 1) * Z.to_nat limit) l))).
    + rewrite pages_tile. apply firstn_all2. nia.
    + intros k Hk. apply in_seq in Hk. rewrite Epage by lia.
      rewrite Nat2Z.id. reflexivity.
  - intros k Hk. rewrite Epage by lia.
    rewrite skipn_all2; [apply firstn_nil|]. nia.
  - intros k Hk. rewrite Epage by lia. intros E.
    apply (f_equal (@length A)) in E.
    rewrite length_firstn, length_skipn in E. simpl in E. nia.
Qed.

(** X19. getUserPurchases hands out the buyer's purchases, newest first,
    in pages: for a limit of at least 1, every page asked for with a
    non-negative page number holds at most limit purchases, the pages 1 to pages (the count the response reports) put
    end to end are exactly the buyer's purchases in that order, these pages
    are non-empty and every later page is empty; total is their number. *)
Theorem getUserPurchases_pages_tile db u limit :
  1 <= limit ->
  let all :=
    sortNewestFirst purchase_createdAt
      (List.filter (isPurchaseOf u) (purchases db)) in
  let pageOf k := getUserPurchases u (Parsed k) (Parsed limit) db in
  let pages := pagination_pages (paginated_pagination (pageOf 1)) in
  StronglySorted
    (fun a b => purchase_createdAt b <= purchase_createdAt a) all /\
  (forall p, In p all <-> In p (purchases db) /\ purchase_buyer p = u) /\
  (forall k, 0 <= k ->
     (length (paginated_data (pageOf k)) <= Z.to_nat limit)%nat /\
     pagination_total (paginated_pagination (pageOf k))
       = Z.of_nat (length all) /\
     pagination_pages (paginated_pagination (pageOf k)) = pages) /\
  concat (map (fun k => paginated_data (pageOf (Z.of_nat k)))
            (seq 1 (Z.to_nat pages))) = all /\
  (forall k, pages < k -> paginated_data (pageOf k) = []) /\
  (forall k, 1 <= k <= pages -> paginated_data (pageOf k) <> []).
Proof.
  intros Hl all pageOf pages.
  assert (Elen : length (List.filter (isPurchaseOf u) (purchases db))
                 = length all)
    by (symmetry; apply Permutation_length, sortNewestFirst_perm).
  assert (Epg : forall k,
            paginated_pagination (pageOf k)
            = mkPagination
                (opt_page (getPaginationOptions (Parsed k) (Parsed limit)))
                limit (Z.of_nat (length all))
                (ceilDiv (Z.of_nat (length all)) limit)).
  { intros k. unfold pageOf, getUserPurchases, sendPaginated. cbv zeta.
    cbn [paginated_pagination].
    rewrite getPaginationOptions_limit by lia. rewrite Elen. reflexivity. }
  assert (Epages : pages = ceilDiv (Z.of_nat (length all)) limit)
    by (unfold pages; rewrite Epg; reflexivity).
  destruct (skipLimit_tiles all limit Hl) as (T1 & T2 & T3 & T4).
  split_and!.
  - apply sortNewestFirst_sorted.
  - intros p.
    transitivity (In p (List.filter (isPurchaseOf u) (purchases db))).
    + split.
      * apply Permutation_in, sortNewestFirst_perm.
      * apply Permutation_in. symmetry. apply sortNewestFirst_perm.
    + rewrite filter_In. unfold isPurchaseOf. rewrite N.eqb_eq. reflexivity.
  - intros k _. rewrite Epg. cbn [pagination_total pagination_pages].
    split_and!; [|reflexivity|symmetry; exact Epages].
    specialize (T1 k). cbv zeta in T1. unfold pageOf, getUserPurchases.
    cbv zeta. cbn [paginated_data sendPaginated]. fold all. lia.
  - rewrite Epages. exact T2.
  - intros k Hk. rewrite Epages in Hk. exact (T3 k Hk).
  - intros k Hk. rewrite Epages in Hk. exact (T4 k Hk).
Qed.

(** ** getCreatorEarnings *)

Lemma fold_right_amounts l :
  fold_right (fun e sum => earning_amount e + sum) 0 l = sumEarnings l.
Proof.
  induction l as [|e l IH]; simpl; [reflexivity|].
  rewrite sumEarnings_cons, IH. reflexivity.
Qed.

Lemma filter_filter_and {A} (p q : A -> bool) l :
  List.filter p (List.filter q l) = List.filter (fun x => q x && p x) l.
Proof.
  induction l as [|x l IH]; simpl; [reflexivity|].
  destruct (q x); simpl; [|exact IH].
  destruct (p x); rewrite IH; reflexivity.
Qed.

Lemma creator_count_split u l :
  length (List.filter (isEarningOf u) l) =
  (length (List.filter (isPendingEarningOf u) l) +
   length (List.filter (isClaimedEarningOf u) l))%nat.
Proof.
  induction l as [|x l IH]; simpl; [reflexivity|].
  unfold isEarningOf, isPendingEarningOf, isClaimedEarningOf in *.
  destruct (earning_creator x =? u)%N; simpl; [|exact IH].
  destruct (earning_status x); simpl; rewrite IH; lia.
Qed.

Lemma groupOf_fold s matched d :
  fold_left setSummary (groupOf s matched) d =
  let g := List.filter (fun e => EarningStatus_eqb (earning_status e) s)
                       matched in
  match g with
  | [] => d
  | _ :: _ =>
      setSummary d (mkStatusGroup s (sumEarnings g) (Z.of_nat (length g)))
  end.
Proof.
  unfold groupOf. cbv zeta.
  destruct (List.filter _ matched) as [|e g] eqn:E; [reflexivity|].
  simpl fold_left. rewrite fold_right_amounts, sumEarnings_cons. reflexivity.
Qed.

(** X20. The summary of getCreatorEarnings agrees with the ledger the
    claim handler works on: its pending amount is the total a claim is
    checked against and its pending count the number of earnings a claim
    can consume, its claimed amount is the sum of the claimed earnings, and
    the two counts add up to the total the pagination reports; a status
    without earnings shows amount 0 and count 0. *)
Theorem getCreatorEarnings_summary_agrees db u parsedPage parsedLimit :
  let r := getCreatorEarnings u parsedPage parsedLimit db in
  summary_pending (response_summary r)
    = mkSummaryEntry (pendingTotal db u)
        (Z.of_nat (length (findPendingEarnings u db))) /\
  summary_claimed (response_summary r)
    = mkSummaryEntry (claimedTotal db u)
        (Z.of_nat (length (List.filter (isClaimedEarningOf u) (earnings db)))) /\
  summary_count (summary_pending (response_summary r))
  + summary_count (summary_claimed (response_summary r))
    = pagination_total (response_pagination r).
Proof.
  cbv zeta. unfold getCreatorEarnings. cbv zeta.
  cbn [response_summary response_pagination pagination_total].
  unfold aggregateByStatus. cbv zeta.
  rewrite fold_left_app, !groupOf_fold. cbv zeta.
  rewrite !filter_filter_and.
  change (fun x => isEarningOf u x
                   && EarningStatus_eqb (earning_status x) pending)
    with (isPendingEarningOf u).
  change (fun x => isEarningOf u x
                   && EarningStatus_eqb (earning_status x) claimed)
    with (isClaimedEarningOf u).
  rewrite creator_count_split, pendingTotal_unsorted.
  unfold claimedTotal, findPendingEarnings.
  rewrite (Permutation_length (sortByCreatedAt_perm _)).
  destruct (List.filter (isPendingEarningOf u) (earnings db)) as [|e1 g1];
    destruct (List.filter (isClaimedEarningOf u) (earnings db)) as [|e2 g2];
    cbn [setSummary group_id summary_pending summary_claimed summary_count
         group_totalAmount group_count length];
    split_and!; try reflexivity; lia.
Qed.

(** X21. getCreatorEarnings hands out the creator's earnings, newest
    first, in pages: for a limit of at least 1, every page asked for with
    a non-negative page number holds at most limit earnings, the pages 1 to pages (the count the response reports)
    put end to end are exactly the creator's earnings in that order, these
    pages are non-empty and every later page is empty. *)
Theorem getCreatorEarnings_pages_tile db u limit :
  1 <= limit ->
  let all :=
    sortNewestFirst earning_createdAt
      (List.filter (isEarningOf u) (earnings db)) in
  let pageOf k := getCreatorEarnings u (Parsed k) (Parsed limit) db in
  let pages := pagination_pages (response_pagination (pageOf 1)) in
  StronglySorted
    (fun a b => earning_createdAt b <= earning_createdAt a) all /\
  (forall e, In e all <-> In e (earnings db) /\ earning_creator e = u) /\
  (forall k, 0 <= k ->
     (length (response_earnings (pageOf k)) <= Z.to_nat limit)%nat /\
     pagination_total (response_pagination (pageOf k))
       = Z.of_nat (length all) /\
     pagination_pages (response_pagination (pageOf k)) = pages) /\
  concat (map (fun k => response_earnings (pageOf (Z.of_nat k)))
            (seq 1 (Z.to_nat pages))) = all /\
  (forall k, pages < k -> response_earnings (pageOf k) = []) /\
  (forall k, 1 <= k <= pages -> response_earnings (pageOf k) <> []).
Proof.
  intros Hl all pageOf pages.
  assert (Elen : length (List.filter (isEarningOf u) (earnings db))
                 = length all)
    by (symmetry; apply Permutation_length, sortNewestFirst_perm).
  assert (Epg : forall k,
            response_pagination (pageOf k)
            = mkPagination
                (opt_page (getPaginationOptions (Parsed k) (Parsed limit)))
                limit (Z.of_nat (length all))
                (ceilDiv (Z.of_nat (length all)) limit)).
  { intros k. unfold pageOf, getCreatorEarnings. cbv zeta.
    cbn [response_pagination].
    rewrite getPaginationOptions_limit by lia. rewrite Elen. reflexivity. }
  assert (Epages : pages = ceilDiv (Z.of_nat (length all)) limit)
    by (unfold pages; rewrite Epg; reflexivity).
  destruct (skipLimit_tiles all limit Hl) as (T1 & T2 & T3 & T4).
  split_and!.
  - apply sortNewestFirst_sorted.
  - intros e.
    transitivity (In e (List.filter (isEarningOf u) (earnings db))).
    + split.
      * apply Permutation_in, sortNewestFirst_perm.
      * apply Permutation_in. symmetry. apply sortNewestFirst_perm.
    + rewrite filter_In. unfold isEarningOf. rewrite N.eqb_eq. reflexivity.
  - intros k _. rewrite Epg. cbn [pagination_total pagination_pages].
    split_and!; [|reflexivity|symmetry; exact Epages].
    specialize (T1 k). cbv zeta in T1. unfold pageOf, getCreatorEarnings.
    cbv zeta. cbn [response_earnings]. fold all. lia.
  - rewrite Epages. exact T2.
  - intros k Hk. rewrite Epages in Hk. exact (T3 k Hk).
  - intros k Hk. rewrite Epages in Hk. exact (T4 k Hk).
Qed.

(** ** More on how the handlers compose *)

(** X22. A successful settleCredit stamps its reference on every earning
    that belongs to one of the purchases it settles, whatever the earning's
    status: on an earning that was already claimed it replaces the payout
    reference, and the earning stays claimed.  Earnings of other purchases
    are left as they are. *)
Theorem settleCredit_stamps_the_earnings db u ref resp db' :
  settleCredit u ref db = (Ok resp, db') ->
  exists h,
    ref = JsString h /\
    (forall p e,
       In p (findPendingPurchases u db) -> In e (earnings db) ->
       earning_purchase e = purchase_id p ->
       In (setEarningHash h e) (earnings db') /\
       earning_transactionHash (setEarningHash h e) = Some h /\
       earning_status (setEarningHash h e) = earning_status e /\
       earning_claimedAt (setEarningHash h e) = earning_claimedAt e) /\
    (forall e,
       In e (earnings db) ->
       (forall p, In p (findPendingPurchases u db) ->
                  earning_purchase e <> purchase_id p) ->
       In e (earnings db')).
Proof.
  intros H.
  destruct (settleCredit_cases db u ref)
    as [[e He]|(h & cr & resp' & -> & _ & _ & _ & _ & Hok)].
  { rewrite He in H. discriminate. }
  rewrite Hok in H. injection H as _ <-. exists h.
  split; [reflexivity|]. split.
  - intros p e Hp He E. split_and!; try reflexivity.
    assert (Hex : existsb (N.eqb (earning_purchase e))
                    (map purchase_id (findPendingPurchases u db)) = true).
    { apply existsb_exists. exists (purchase_id p).
      split; [apply in_map; exact Hp | apply N.eqb_eq; exact E]. }
    unfold settled. simpl. apply in_map_iff. exists e. split; [|exact He].
    rewrite Hex. reflexivity.
  - intros e He Hno. unfold settled. simpl. apply in_map_iff.
    exists e. split; [|exact He].
    destruct (existsb _ _) eqn:E; [|reflexivity].
    apply existsb_exists in E as (i & Hi & E). apply N.eqb_eq in E.
    apply in_map_iff in Hi as (p & <- & Hp). destruct (Hno p Hp E).
Qed.




(** ** These properties at work on the small marketplace *)

Lemma exampleDb_storeConsistent : storeConsistent exampleDb.
Proof.
  constructor.
  - exact exampleDb_contentsValid.
  - constructor.
  - constructor.
  - constructor.
  - constructor.
  - constructor.
  - constructor.
Defined.

Lemma exampleDb_referencesDistinct : referencesDistinct exampleDb.
Proof.
  unfold referencesDistinct, exampleDb. simpl.
  apply map_Forall_insert_2; [|apply map_Forall_empty].
  simpl. repeat constructor. simpl. tauto.
Defined.



Lemma dbPurchased_storeConsistent : storeConsistent dbPurchased.
Proof.
  apply (handle_storeConsistent (mkEnv 1000 exampleWallet)
           (ReqCreatePurchase 1%N 10%N) exampleDb exampleDb_storeConsistent).
Defined.

Lemma dbClaimed30_storeConsistent : storeConsistent dbClaimed30.
Proof.
  apply (handle_storeConsistent (mkEnv 2000 exampleWallet)
           (ReqClaimCreatorEarnings 2%N 30) dbPurchased
           dbPurchased_storeConsistent).
Defined.

Lemma createPurchase_only_once_witness :
  createPurchase (mkEnv 1000 exampleWallet) 1%N 10%N exampleDb
    = (Ok (PurchaseCreated 100%N 50 "credit_1000" 50), dbPurchased) /\
  createPurchase (mkEnv 3000 exampleWallet) 1%N 10%N
    (run [(mkEnv 1100 exampleWallet, ReqSettleCredit 1%N (JsString "0xabc"))]
         dbPurchased)
  = (Err AlreadyPurchased,
     run [(mkEnv 1100 exampleWallet, ReqSettleCredit 1%N (JsString "0xabc"))]
         dbPurchased).
Proof.
  assert (H : createPurchase (mkEnv 1000 exampleWallet) 1%N 10%N exampleDb
              = (Ok (PurchaseCreated 100%N 50 "credit_1000" 50), dbPurchased))
    by (vm_compute; reflexivity).
  split; [exact H|].
  exact (createPurchase_only_once _ _ _ _ _ _ exampleDb_contentsValid H
           [(mkEnv 1100 exampleWallet, ReqSettleCredit 1%N (JsString "0xabc"))]
           (mkEnv 3000 exampleWallet)).
Defined.


Lemma createPurchase_counts_the_sale_twice_witness :
  contents exampleDb !! 10%N = Some (mkContent 2%N 50 0) /\
  exists x',
    contents dbPurchased !! 10%N = Some x' /\
    content_salesCount x' = 0 + 2 /\
    content_price x' = 50 /\
    content_creator x' = 2%N /\
    totalRevenue x' = totalRevenue (mkContent 2%N 50 0) + 2 * 50 /\
    totalEarningsOf dbPurchased 2%N =
      match users exampleDb !! 2%N with
      | Some u => user_totalEarnings u + 50
      | None => 0
      end.
Proof.
  assert (H : createPurchase (mkEnv 1000 exampleWallet) 1%N 10%N exampleDb
              = (Ok (PurchaseCreated 100%N 50 "credit_1000" 50), dbPurchased))
    by (vm_compute; reflexivity).
  assert (Hx : contents exampleDb !! 10%N = Some (mkContent 2%N 50 0))
    by (vm_compute; reflexivity).
  split; [exact Hx|].
  exact (createPurchase_counts_the_sale_twice _ _ _ _ _ _ _ H Hx).
Defined.

Lemma settleCredit_pays_nobody_witness :
  settleCredit 1%N (JsString "0xabc") dbPurchased
    = (Ok (CreditSettled 50 1 100), dbSettled) /\
  pendingTotal dbSettled 2%N = pendingTotal dbPurchased 2%N /\
  claimedTotal dbSettled 2%N = claimedTotal dbPurchased 2%N.
Proof.
  assert (H : settleCredit 1%N (JsString "0xabc") dbPurchased
              = (Ok (CreditSettled 50 1 100), dbSettled))
    by (vm_compute; reflexivity).
  split; [exact H|].
  destruct (settleCredit_pays_nobody _ _ _ _ _ H) as (_ & _ & _ & W).
  destruct (W 2%N) as (_ & W1 & W2). auto.
Defined.


Lemma references_are_recorded_once_witness :
  credits (run exampleRequests exampleDb) !! 1%N
    = Some (mkSimpleCredit 70 ["0xabc"]) /\
  List.NoDup (settledTransactions (mkSimpleCredit 70 ["0xabc"])).
Proof.
  assert (H : credits (run exampleRequests exampleDb) !! 1%N
              = Some (mkSimpleCredit 70 ["0xabc"]))
    by (vm_compute; reflexivity).
  split; [exact H|].
  exact (references_are_recorded_once exampleRequests exampleDb
           exampleDb_contentsValid exampleDb_referencesDistinct 1%N _ H).
Defined.


Lemma reachable_ids_are_distinct_witness :
  List.NoDup (map earning_id (earnings (run exampleRequests exampleDb))) /\
  List.NoDup (map purchase_id (purchases (run exampleRequests exampleDb))).
Proof.
  destruct (reachable_ids_are_distinct exampleRequests exampleDb
              exampleDb_storeConsistent) as (W1 & W2 & _).
  split; [exact W1 | exact W2].
Defined.

Lemma every_purchase_has_one_earning_witness :
  length (earnings (run exampleRequests exampleDb))
  = length (purchases (run exampleRequests exampleDb)).
Proof.
  exact (proj1 (every_purchase_has_one_earning exampleRequests exampleDb
                  exampleDb_storeConsistent)).
Defined.

Lemma claim_moves_pending_to_claimed_witness :
  claimCreatorEarnings (mkEnv 2000 exampleWallet) 2%N 60 dbTwoSales
    = (Ok (EarningsClaimed 60 2 20 "0xab12"), dbClaimed60) /\
  claimedTotal dbClaimed60 2%N - claimedTotal dbTwoSales 2%N
    = pendingTotal dbTwoSales 2%N - pendingTotal dbClaimed60 2%N /\
  totalEarningsOf dbClaimed60 2%N = totalEarningsOf dbTwoSales 2%N + 60.
Proof.
  assert (H : claimCreatorEarnings (mkEnv 2000 exampleWallet) 2%N 60 dbTwoSales
              = (Ok (EarningsClaimed 60 2 20 "0xab12"), dbClaimed60))
    by (vm_compute; reflexivity).
  split; [exact H|].
  destruct (claim_moves_pending_to_claimed _ _ _ _ _ _
              dbTwoSales_earningIdsUnique H) as (W1 & _ & W2 & _).
  split; [exact W1 | exact W2].
Defined.

Lemma claimed_is_final_witness :
  claimedTotal dbClaimed30 2%N
  <= claimedTotal
       (run [(mkEnv 3000 exampleWallet,
              ReqSettleCredit 1%N (JsString "0xabc"));
             (mkEnv 3100 exampleWallet, ReqCreatePurchase 1%N 12%N)]
            dbClaimed30) 2%N.
Proof.
  exact (proj1 (claimed_is_final
                  [(mkEnv 3000 exampleWallet,
                    ReqSettleCredit 1%N (JsString "0xabc"));
                   (mkEnv 3100 exampleWallet, ReqCreatePurchase 1%N 12%N)]
                  dbClaimed30 dbClaimed30_storeConsistent) 2%N).
Defined.

Lemma reported_remaining_bounds_pending_witness :
  claimCreatorEarnings (mkEnv 2000 exampleWallet) 2%N 60 dbTwoSales
    = (Ok (EarningsClaimed 60 2 20 "0xab12"), dbClaimed60) /\
  20 = pendingTotal dbTwoSales 2%N - 60 /\
  0 <= pendingTotal dbClaimed60 2%N <= 20.
Proof.
  assert (H : claimCreatorEarnings (mkEnv 2000 exampleWallet) 2%N 60 dbTwoSales
              = (Ok (EarningsClaimed 60 2 20 "0xab12"), dbClaimed60))
    by (vm_compute; reflexivity).
  split; [exact H|].
  destruct (reported_remaining_bounds_pending _ _ _ _ _ _ _ _ _
              dbTwoSales_earningIdsUnique dbTwoSales_earningsValid H)
    as (_ & W1 & _ & W2 & _).
  split; [exact W1 | exact W2].
Defined.

Lemma sendPaginated_pages_cover_witness :
  pagination_pages
    (paginated_pagination (sendPaginated (@nil Purchase) 1 10 25)) = 3 /\
  25 <= 3 * 10 /\ (3 - 1) * 10 < 25.
Proof.
  split; [reflexivity|].
  destruct (sendPaginated_pages_cover (@nil Purchase) 1 10 25) as (_ & W1 & W2 & _).
  - lia.
  - lia.
  - split; [exact W1 | exact W2].
Defined.

Lemma getUserPurchases_pages_tile_witness :
  pagination_pages
    (paginated_pagination (getUserPurchases 1%N (Parsed 1) (Parsed 1) dbTwoSales))
    = 2 /\
  map purchase_amount
    (concat (map (fun k => paginated_data
                     (getUserPurchases 1%N (Parsed (Z.of_nat k)) (Parsed 1)
                        dbTwoSales))
               (seq 1 (Z.to_nat 2)))) = [30; 50] /\
  concat (map (fun k => paginated_data
                  (getUserPurchases 1%N (Parsed (Z.of_nat k)) (Parsed 1)
                     dbTwoSales))
            (seq 1 (Z.to_nat
                      (pagination_pages
                         (paginated_pagination
                            (getUserPurchases 1%N (Parsed 1) (Parsed 1)
                               dbTwoSales))))))
  = sortNewestFirst purchase_createdAt
      (List.filter (isPurchaseOf 1%N) (purchases dbTwoSales)).
Proof.
  split; [vm_compute; reflexivity|]. split; [vm_compute; reflexivity|].
  destruct (getUserPurchases_pages_tile dbTwoSales 1%N 1) as (_ & _ & _ & W & _).
  - lia.
  - exact W.
Defined.

Lemma getCreatorEarnings_pages_tile_witness :
  concat (map (fun k => response_earnings
                  (getCreatorEarnings 2%N (Parsed (Z.of_nat k)) (Parsed 1)
                     dbTwoSales))
            (seq 1 (Z.to_nat
                      (pagination_pages
                         (response_pagination
                            (getCreatorEarnings 2%N (Parsed 1) (Parsed 1)
                               dbTwoSales))))))
  = sortNewestFirst earning_createdAt
      (List.filter (isEarningOf 2%N) (earnings dbTwoSales)).
Proof.
  destruct (getCreatorEarnings_pages_tile dbTwoSales 2%N 1) as (_ & _ & _ & W & _).
  - lia.
  - exact W.
Defined.

Lemma settleCredit_stamps_the_earnings_witness :
  map earning_status (earnings dbClaimed30) = [claimed] /\
  map earning_transactionHash (earnings dbClaimed30) = [Some "0xab12"] /\
  settleCredit 1%N (JsString "0xabc") dbClaimed30
    = (Ok (CreditSettled 50 1 100), dbClaimedThenSettled) /\
  map earning_status (earnings dbClaimedThenSettled) = [claimed] /\
  map earning_transactionHash (earnings dbClaimedThenSettled) = [Some "0xabc"] /\
  exists h, JsString "0xabc" = JsString h.
Proof.
  assert (H : settleCredit 1%N (JsString "0xabc") dbClaimed30
              = (Ok (CreditSettled 50 1 100), dbClaimedThenSettled))
    by (vm_compute; reflexivity).
  split; [vm_compute; reflexivity|]. split; [vm_compute; reflexivity|].
  split; [exact H|].
  split; [vm_compute; reflexivity|]. split; [vm_compute; reflexivity|].
  destruct (settleCredit_stamps_the_earnings _ _ _ _ _ H) as (h & W & _).
  exists h. exact W.
Defined.

